(** * DevMate-AI backend ([src/backend/server.js]): request orchestration

    A shallow embedding of the Express handlers of [server.js] and of the
    helpers they use ([isLikelyBase64], [safeDecode], [DEFAULT_LANGUAGE_IDS]),
    together with the part of the JavaScript and Node.js runtime those lines
    rely on: string primitives ([trim], [includes], regular-expression tests),
    the [Buffer] codecs for base64 and UTF-8, and property lookup on an
    object literal. Of the editor page ([src/frontend/js/monaco-loader.js])
    the one pure function is embedded, [formatExplanation]; the rest of
    the page acts on a document that is not part of the sources.

    Conventions of the model:
    - a string is its list of UTF-16 code units, a buffer its list of octets;
    - a JSON field that is absent or [null] is [None];
    - a handler is a function of the upstream services' behaviour ([Env])
      and of the [World] it starts in (wall clock, log of outbound
      requests), to its response and the world it leaves;
    - an awaited request either answers or fails; a failure that the source
      does not catch locally ends in the handler's [catch] block;
    - the clock never runs backwards and a timer never fires early. *)

From Stdlib Require Import List NArith ZArith Bool String Ascii Lia.
Import ListNotations.

Local Open Scope N_scope.

(** [lia] reads [/] and [mod] by a constant through their Euclidean
    equations. *)
Ltac Zify.zify_post_hook ::= Z.to_euclidean_division_equations.

(* ================================================================== *)
(** ** JavaScript strings *)
(* ================================================================== *)

Module JS.

(** A JavaScript string is a sequence of UTF-16 code units. *)
Definition str := list N.

(** An ASCII literal of the source text. *)
Definition lit (s : string) : str := map N_of_ascii (list_ascii_of_string s).

(** [Boolean(s)] for a string: only the empty string is falsy. *)
Definition truthy (s : str) : bool :=
  match s with [] => false | _ :: _ => true end.

(** ECMAScript [WhiteSpace] and [LineTerminator] code points, the set that
    [String.prototype.trim] strips. *)
Definition isWhiteSpace (c : N) : bool :=
  ((0x09 <=? c) && (c <=? 0x0D))       (* TAB, LF, VT, FF, CR *)
  || (c =? 0x20) || (c =? 0xA0) || (c =? 0x1680)
  || ((0x2000 <=? c) && (c <=? 0x200A))
  || (c =? 0x2028) || (c =? 0x2029) || (c =? 0x202F)
  || (c =? 0x205F) || (c =? 0x3000) || (c =? 0xFEFF).

Fixpoint dropWhile (p : N -> bool) (s : str) : str :=
  match s with
  | [] => []
  | c :: s' => if p c then dropWhile p s' else s
  end.

Definition dropWhileEnd (p : N -> bool) (s : str) : str :=
  rev (dropWhile p (rev s)).

(** [s.trim()] *)
Definition trim (s : str) : str :=
  dropWhileEnd isWhiteSpace (dropWhile isWhiteSpace s).

Fixpoint startsWith (p s : str) : bool :=
  match p, s with
  | [], _ => true
  | _ :: _, [] => false
  | a :: p', b :: s' => (a =? b) && startsWith p' s'
  end.

(** [s.includes(p)]: [p] occurs in [s] as a contiguous run of code units. *)
Fixpoint includes (s p : str) : bool :=
  startsWith p s ||
  match s with
  | [] => false
  | _ :: s' => includes s' p
  end.

Definition isUpper (c : N) : bool := (65 <=? c) && (c <=? 90).
Definition isLower (c : N) : bool := (97 <=? c) && (c <=? 122).
Definition isDigit (c : N) : bool := (48 <=? c) && (c <=? 57).

(** The character class [[A-Za-z0-9+/=\r\n]] of line 49. *)
Definition inBase64Class (c : N) : bool :=
  isUpper c || isLower c || isDigit c
  || (c =? 43) || (c =? 47) || (c =? 61) || (c =? 13) || (c =? 10).

(** [/^[A-Za-z0-9+/=\r\n]+$/.test(s)]: one or more characters, all of the
    class (no [m] flag, so the anchors are the ends of the string). *)
Definition testBase64Chars (s : str) : bool :=
  truthy s && forallb inBase64Class s.

(** [s.replace(/=+$/, '')]: the trailing run of ['='] is removed. *)
Definition stripPadding (s : str) : str :=
  dropWhileEnd (fun c => c =? 61) s.

Definition isHighSurrogate (c : N) : bool := (0xD800 <=? c) && (c <=? 0xDBFF).
Definition isLowSurrogate (c : N) : bool := (0xDC00 <=? c) && (c <=? 0xDFFF).

(** A well-formed string: 16-bit code units, surrogates only in pairs. *)
Fixpoint wellFormed (s : str) : bool :=
  match s with
  | [] => true
  | c :: rest =>
      if isHighSurrogate c then
        match rest with
        | d :: rest' => isLowSurrogate d && wellFormed rest'
        | [] => false
        end
      else negb (isLowSurrogate c) && (c <? 0x10000) && wellFormed rest
  end.

End JS.

(* ================================================================== *)
(** ** Node.js [Buffer]: the base64 and UTF-8 codecs *)
(* ================================================================== *)

Module Buffer.

(** A buffer is a sequence of octets. *)
Definition bytes := list N.

(** Every element is an octet. *)
Definition octets (b : bytes) : Prop := Forall (fun x => x < 256) b.

(** *** base64 *)

Definition b64char (v : N) : N :=
  if v <? 26 then 65 + v
  else if v <? 52 then 97 + (v - 26)
  else if v <? 62 then 48 + (v - 52)
  else if v =? 62 then 43
  else 47.

(** The decoder reads a string one code unit at a time and keeps the low
    byte of each: a code unit of 256 or more is read as the character its
    low byte stands for. *)
Definition lowByte (c : N) : N := c mod 256.

(** The decoder's table, applied to the low byte: both the standard and the
    URL-safe alphabet. *)
Definition unbase64 (c : N) : option N :=
  let x := lowByte c in
  if JS.isUpper x then Some (x - 65)
  else if JS.isLower x then Some (x - 71)
  else if JS.isDigit x then Some (x + 4)
  else if (x =? 43) || (x =? 45) then Some 62
  else if (x =? 47) || (x =? 95) then Some 63
  else None.

(** [buf.toString('base64')]: three octets to four characters, padded. *)
Fixpoint toBase64 (b : bytes) : JS.str :=
  match b with
  | [] => []
  | [x] => [b64char (x / 4); b64char ((x mod 4) * 16); 61; 61]
  | [x; y] =>
      [b64char (x / 4); b64char ((x mod 4) * 16 + y / 16);
       b64char ((y mod 16) * 4); 61]
  | x :: y :: z :: rest =>
      b64char (x / 4) :: b64char ((x mod 4) * 16 + y / 16)
      :: b64char ((y mod 16) * 4 + z / 64) :: b64char (z mod 64)
      :: toBase64 rest
  end.

(** The decoder is lenient: characters outside the alphabet are skipped and
    decoding stops at the first ['='], both judged by the low byte. *)
Fixpoint sextets (s : JS.str) : list N :=
  match s with
  | [] => []
  | c :: s' =>
      if lowByte c =? 61 then []
      else match unbase64 c with
           | Some v => v :: sextets s'
           | None => sextets s'
           end
  end.

(** Four sextets give three octets; a trailing group of three gives two, of
    two gives one, and a single trailing sextet is dropped. *)
Fixpoint groupOctets (q : list N) : bytes :=
  match q with
  | a :: b :: c :: d :: rest =>
      (a * 4 + b / 16) :: ((b mod 16) * 16 + c / 4) :: ((c mod 4) * 64 + d)
      :: groupOctets rest
  | [a; b; c] => [a * 4 + b / 16; (b mod 16) * 16 + c / 4]
  | [a; b] => [a * 4 + b / 16]
  | _ => []
  end.

(** [Buffer.from(s, 'base64')] *)
Definition fromBase64 (s : JS.str) : bytes := groupOctets (sextets s).

(** *** UTF-8 *)

(** The decoder's state: idle, or inside a sequence with the code point
    accumulated so far, the number of continuation octets still expected and
    the range allowed for the next one. *)
Inductive utf8State :=
| Idle
| Cont (cp : N) (need : nat) (lo hi : N).

Definition replacement : N := 0xFFFD.

Definition utf8Lead (b : N) : list N * utf8State :=
  if b <=? 0x7F then ([b], Idle)
  else if (0xC2 <=? b) && (b <=? 0xDF) then
    ([], Cont (b mod 32) 1 0x80 0xBF)
  else if (0xE0 <=? b) && (b <=? 0xEF) then
    ([], Cont (b mod 16) 2
              (if b =? 0xE0 then 0xA0 else 0x80)
              (if b =? 0xED then 0x9F else 0xBF))
  else if (0xF0 <=? b) && (b <=? 0xF4) then
    ([], Cont (b mod 8) 3
              (if b =? 0xF0 then 0x90 else 0x80)
              (if b =? 0xF4 then 0x8F else 0xBF))
  else ([replacement], Idle).

(** One octet. An octet that cannot continue the open sequence closes it
    with U+FFFD and is then read again as the start of a new one. *)
Definition utf8Step (st : utf8State) (b : N) : list N * utf8State :=
  match st with
  | Idle => utf8Lead b
  | Cont cp need lo hi =>
      if (lo <=? b) && (b <=? hi) then
        let cp' := cp * 64 + b mod 64 in
        match need with
        | S (S n) => ([], Cont cp' (S n) 0x80 0xBF)
        | _ => ([cp'], Idle)
        end
      else
        let (out, st') := utf8Lead b in (replacement :: out, st')
  end.

Fixpoint utf8Run (st : utf8State) (b : bytes) : list N :=
  match b with
  | [] => match st with Idle => [] | Cont _ _ _ _ => [replacement] end
  | x :: rest =>
      let (out, st') := utf8Step st x in out ++ utf8Run st' rest
  end.

(** A code point as UTF-16 code units. *)
Definition utf16Units (cp : N) : JS.str :=
  if cp <? 0x10000 then [cp]
  else [0xD800 + (cp - 0x10000) / 1024; 0xDC00 + (cp - 0x10000) mod 1024].

(** [buf.toString('utf8')]: ill-formed input is replaced, never rejected. *)
Definition toStringUtf8 (b : bytes) : JS.str :=
  flat_map utf16Units (utf8Run Idle b).

Definition utf8Octets (cp : N) : bytes :=
  if cp <? 0x80 then [cp]
  else if cp <? 0x800 then [0xC0 + cp / 64; 0x80 + cp mod 64]
  else if cp <? 0x10000 then
    [0xE0 + cp / 4096; 0x80 + (cp / 64) mod 64; 0x80 + cp mod 64]
  else
    [0xF0 + cp / 262144; 0x80 + (cp / 4096) mod 64;
     0x80 + (cp / 64) mod 64; 0x80 + cp mod 64].

(** [Buffer.from(s, 'utf8')]: a surrogate pair is one code point, a lone
    surrogate is written as U+FFFD. *)
Fixpoint fromUtf8 (s : JS.str) : bytes :=
  match s with
  | [] => []
  | c :: rest =>
      if JS.isHighSurrogate c then
        match rest with
        | d :: rest' =>
            if JS.isLowSurrogate d then
              utf8Octets (0x10000 + (c - 0xD800) * 1024 + (d - 0xDC00))
              ++ fromUtf8 rest'
            else utf8Octets replacement ++ fromUtf8 rest
        | [] => utf8Octets replacement
        end
      else if JS.isLowSurrogate c then utf8Octets replacement ++ fromUtf8 rest
      else utf8Octets c ++ fromUtf8 rest
  end.

End Buffer.

(* ================================================================== *)
(** ** Helpers of [server.js] (lines 44-72) *)
(* ================================================================== *)

(** [isLikelyBase64] (lines 44-58), on a string argument. Neither [Buffer]
    call throws on a string, so the [catch] branch is dead. *)
Definition isLikelyBase64 (s : JS.str) : bool :=
  let maybe := JS.trim s in
  if negb (JS.testBase64Chars maybe) then false
  else
    let decoded := Buffer.toStringUtf8 (Buffer.fromBase64 maybe) in
    let reencoded := JS.stripPadding (Buffer.toBase64 (Buffer.fromUtf8 decoded)) in
    let normalized := JS.stripPadding maybe in
    if list_eq_dec N.eq_dec reencoded normalized then true else false.

(** [safeDecode] (lines 60-72). The argument is a field of the judge's JSON
    answer: a string, or [None] for [null] and for an absent field. *)
Definition safeDecode (maybeB64 : option JS.str) : JS.str :=
  match maybeB64 with
  | None => []
  | Some s =>
      if isLikelyBase64 s
      then Buffer.toStringUtf8 (Buffer.fromBase64 s)
      else s
  end.

(* ================================================================== *)
(** ** JSON data exchanged with the judge service *)
(* ================================================================== *)

(** In the records below [None] stands for a field that is absent or
    [null]; optional chaining ([?.]) and [??] treat the two alike. *)

Record Status := { id : option Z; description : option JS.str }.

Record ResultData := {
  status : option Status;
  compile_output : option JS.str;
  stderr : option JS.str;
  stdout : option JS.str
}.

(** An entry of the judge's language catalog ([GET /languages]). *)
Record Language := {
  lang_id : option Z;
  lang_name : option JS.str;
  lang_slug : option JS.str
}.

(** The answer to [POST /submissions]. *)
Record Created := { token : option JS.str }.

(** The JSON body of a request to one of the three endpoints. *)
Record Body := { code : option JS.str; language : option JS.str }.

(** The values [langId] can hold: [undefined], a number, or one of the
    members every object inherits from [Object.prototype]. *)
Inductive value :=
| Undefined
| Num (n : Z)
| Inherited (key : JS.str).

Definition truthyValue (v : value) : bool :=
  match v with
  | Undefined => false
  | Num n => negb (n =? 0)%Z
  | Inherited _ => true
  end.

(** [!field] for an optional string: absent, [null] and [''] are falsy. *)
Definition present (f : option JS.str) : bool :=
  match f with
  | None => false
  | Some s => JS.truthy s
  end.

Definition eqStr (a b : JS.str) : bool :=
  if list_eq_dec N.eq_dec a b then true else false.

(** [DEFAULT_LANGUAGE_IDS] (lines 75-81): the own properties of the object
    literal. *)
Definition DEFAULT_LANGUAGE_IDS : list (JS.str * Z) :=
  [ (JS.lit "python", 71%Z);
    (JS.lit "javascript", 63%Z);
    (JS.lit "java", 62%Z);
    (JS.lit "c", 50%Z);
    (JS.lit "c++", 54%Z) ].

(** The property names of [Object.prototype], the prototype of every object
    literal; each holds a function or an object. *)
Definition objectPrototypeKeys : list JS.str :=
  map JS.lit
    [ "constructor"; "__defineGetter__"; "__defineSetter__"; "hasOwnProperty";
      "__lookupGetter__"; "__lookupSetter__"; "isPrototypeOf";
      "propertyIsEnumerable"; "toString"; "valueOf"; "__proto__";
      "toLocaleString" ]%string.

Fixpoint ownProperty (o : list (JS.str * Z)) (key : JS.str) : option Z :=
  match o with
  | [] => None
  | (k, v) :: o' => if eqStr k key then Some v else ownProperty o' key
  end.

(** [o[key]] on an object literal: an own property first, then the
    prototype chain, else [undefined]. *)
Definition getProperty (o : list (JS.str * Z)) (key : JS.str) : value :=
  match ownProperty o key with
  | Some v => Num v
  | None =>
      if existsb (eqStr key) objectPrototypeKeys then Inherited key
      else Undefined
  end.

(* ================================================================== *)
(** ** The outside world *)
(* ================================================================== *)

(** What an awaited request comes back with: the data of the response, or
    a rejection (connection failure, error status) with its details. *)
Inductive reply (A : Type) :=
| Answer (data : A)
| Failure (details : JS.str).
Arguments Answer {A} data.
Arguments Failure {A} details.

(** Outbound requests, as the handlers issue them. *)
Inductive call :=
| GenerateContent (prompt : JS.str)
| GetLanguages
| PostSubmission (source_code : JS.str) (language_id : value)
| GetSubmission (tok : JS.str).

Definition isStatusRequest (c : call) : bool :=
  match c with GetSubmission _ => true | _ => false end.

Definition isSubmission (c : call) : bool :=
  match c with PostSubmission _ _ => true | _ => false end.

Definition isCatalogQuery (c : call) : bool :=
  match c with GetLanguages => true | _ => false end.

Definition countCalls (p : call -> bool) (l : list call) : nat :=
  List.length (filter p l).

(** The upstream services as one request sees them. [poll k] is the answer
    to the [k]-th status request (from 0), which takes [pollLatency k] ms;
    the timer that follows it fires [sleepOvershoot k] ms late. *)
Record Env := {
  generateContent : JS.str -> reply (option JS.str);
  languages : reply (option (list Language));
  submission : JS.str -> value -> reply (option Created);
  poll : nat -> reply (option ResultData);
  pollLatency : nat -> N;
  sleepOvershoot : nat -> N
}.

(** The state a handler threads: the wall clock [Date.now()] in ms and the
    log of the outbound requests made so far, oldest first. *)
Record World := { now : N; calls : list call }.

Definition request (c : call) (latency : N) (w : World) : World :=
  {| now := now w + latency; calls := calls w ++ [c] |}.

Definition sleep (ms : N) (w : World) : World :=
  {| now := now w + ms; calls := calls w |}.

(** What [res.status(..).json(..)] sends. *)
Inductive payload :=
| Error (error : JS.str)
| ErrorDetails (error details : JS.str)
| ErrorRaw (error : JS.str) (raw : option Created)
| Explanation (explanation : JS.str)
| Improved (improvedCode : JS.str)
| Executed (output status tok : JS.str) (raw : ResultData).

Record Response := { statusCode : N; json : payload }.

Definition nl : JS.str := [10].
Definition dquote : JS.str := [34].

(* ================================================================== *)
(** ** The handlers *)
(* ================================================================== *)

Section Handlers.

(** [String.prototype.toLowerCase], which rests on the Unicode case tables
    of the runtime. *)
Variable toLowerCase : JS.str -> JS.str.

(** [POST /api/explain] (lines 87-111) *)
Definition explain (env : Env) (body : Body) (w : World) : Response * World :=
  match code body, language body with
  | Some code, Some language =>
      if negb (JS.truthy code) || negb (JS.truthy language) then
        ({| statusCode := 400; json := Error (JS.lit "Code and language required") |}, w)
      else
        let prompt :=
          JS.lit "Explain the following " ++ language
          ++ JS.lit " code in simple terms:" ++ nl
          ++ JS.lit "1. Break down key components" ++ nl
          ++ JS.lit "2. Describe control flow" ++ nl
          ++ JS.lit "3. Highlight important variables/functions" ++ nl
          ++ JS.lit "4. Use bullet points for clarity" ++ nl ++ nl
          ++ JS.lit "Return ONLY the explanation, no code formatting." ++ nl ++ nl
          ++ JS.lit "Code:" ++ nl ++ code in
        let w1 := request (GenerateContent prompt) 0 w in
        match generateContent env prompt with
        | Failure _ =>
            ({| statusCode := 500; json := Error (JS.lit "Failed to generate explanation") |}, w1)
        | Answer t =>
            let text := match t with Some s => s | None => [] end in
            ({| statusCode := 200;
                json := Explanation (if JS.truthy text then text
                                     else JS.lit "No explanation generated") |}, w1)
        end
  | _, _ =>
      ({| statusCode := 400; json := Error (JS.lit "Code and language required") |}, w)
  end.

(** [POST /api/improve] (lines 114-138) *)
Definition improve (env : Env) (body : Body) (w : World) : Response * World :=
  match code body, language body with
  | Some code, Some language =>
      if negb (JS.truthy code) || negb (JS.truthy language) then
        ({| statusCode := 400; json := Error (JS.lit "Code and language required") |}, w)
      else
        let prompt :=
          JS.lit "Analyze this " ++ language
          ++ JS.lit " code and return ONLY the improved version:" ++ nl
          ++ JS.lit "- If the code is already optimal, return "
          ++ dquote ++ JS.lit "No correction required" ++ dquote ++ nl
          ++ JS.lit "- Do not include any explanations or comments" ++ nl
          ++ JS.lit "- Keep the exact same functionality" ++ nl
          ++ JS.lit "- Only return the raw code" ++ nl ++ nl
          ++ JS.lit "Code:" ++ nl ++ code in
        let w1 := request (GenerateContent prompt) 0 w in
        match generateContent env prompt with
        | Failure _ =>
            ({| statusCode := 500; json := Error (JS.lit "Failed to generate improvements") |}, w1)
        | Answer t =>
            let improvedCode := match t with Some s => s | None => [] end in
            ({| statusCode := 200;
                json := Improved
                  (if JS.includes improvedCode (JS.lit "No correction required")
                   then JS.lit "No correction required"
                   else if JS.truthy (JS.trim improvedCode) then JS.trim improvedCode
                   else JS.lit "No correction generated") |}, w1)
        end
  | _, _ =>
      ({| statusCode := 400; json := Error (JS.lit "Code and language required") |}, w)
  end.

(** The predicate of [find] on lines 162-166. *)
Definition matchesLanguage (language : JS.str) (l : Language) : bool :=
  let name := toLowerCase (match lang_name l with Some s => s | None => [] end) in
  let slug := toLowerCase (match lang_slug l with Some s => s | None => [] end) in
  JS.includes name (toLowerCase language) || JS.includes slug (toLowerCase language).

(** Language resolution (lines 149-179): the value of [langId] on line 181
    and the world after the catalog query, if one was made. *)
Definition resolveLanguage (env : Env) (language : JS.str) (w : World)
  : value * World :=
  let langId := getProperty DEFAULT_LANGUAGE_IDS language in
  if negb (truthyValue langId) then
    let w1 := request GetLanguages 0 w in
    match languages env with
    | Answer (Some records) =>
        match find (matchesLanguage language) records with
        | Some found =>
            (match lang_id found with Some n => Num n | None => Undefined end, w1)
        | None => (langId, w1)
        end
    | Answer None => (langId, w1)
    | Failure _ => (langId, w1)
    end
  else (langId, w).

Definition pollIntervalMs : N := 800.
Definition timeoutMs : N := 20000.

(** [resultData?.status?.id ?? 0] (line 226) *)
Definition statusIdOf (resultData : option ResultData) : Z :=
  match resultData with
  | Some r =>
      match status r with
      | Some s => match id s with Some i => i | None => 0%Z end
      | None => 0%Z
      end
  | None => 0%Z
  end.

(** A result whose [status.id] is absent or [null]. *)
Definition idAbsent (r : ResultData) : Prop :=
  match status r with
  | Some s => id s = None
  | None => True
  end.

(** How the poll loop is left: past its end with the last value of
    [resultData], or by an exception of a status request. *)
Inductive loopExit :=
| Finished (resultData : option ResultData)
| Thrown (details : JS.str).

(** The poll loop (lines 213-229). [k] counts the status requests already
    made; [None] is returned only when [fuel] runs out. *)
Fixpoint pollLoop (fuel : nat) (env : Env) (tok : JS.str) (startAt : N)
    (k : nat) (resultData : option ResultData) (w : World)
  : option (loopExit * World) :=
  match fuel with
  | O => None
  | S fuel' =>
      if now w - startAt <? timeoutMs then
        let w1 := request (GetSubmission tok) (pollLatency env k) w in
        match poll env k with
        | Failure details => Some (Thrown details, w1)
        | Answer data =>
            if (statusIdOf data >? 2)%Z then Some (Finished data, w1)
            else pollLoop fuel' env tok startAt (S k) data
                   (sleep (pollIntervalMs + sleepOvershoot env k) w1)
        end
      else Some (Finished resultData, w)
  end.

(** Every pass through the loop that ends in the timer takes at least
    [pollIntervalMs], so the loop test is evaluated at most 26 times. *)
Definition pollFuel : nat := 26.

(** The course of the loop as a relation: started before the [k]-th status
    request with [resultData = rd] in world [w], the loop makes [n] status
    requests and is left by [exit] in world [w']. *)
Inductive PollRun (env : Env) (tok : JS.str) (startAt : N)
  : nat -> option ResultData -> World -> nat -> loopExit -> World -> Prop :=
| RunTimeout k rd w :
    timeoutMs <= now w - startAt ->
    PollRun env tok startAt k rd w 0 (Finished rd) w
| RunThrown k rd w details :
    now w - startAt < timeoutMs ->
    poll env k = Failure details ->
    PollRun env tok startAt k rd w 1 (Thrown details)
      (request (GetSubmission tok) (pollLatency env k) w)
| RunTerminal k rd w data :
    now w - startAt < timeoutMs ->
    poll env k = Answer data ->
    (2 < statusIdOf data)%Z ->
    PollRun env tok startAt k rd w 1 (Finished data)
      (request (GetSubmission tok) (pollLatency env k) w)
| RunAgain k rd w data n exit w' :
    now w - startAt < timeoutMs ->
    poll env k = Answer data ->
    (statusIdOf data <= 2)%Z ->
    PollRun env tok startAt (S k) data
      (sleep (pollIntervalMs + sleepOvershoot env k)
             (request (GetSubmission tok) (pollLatency env k) w))
      n exit w' ->
    PollRun env tok startAt k rd w (S n) exit w'.

(** [resultData?.status?.description ?? 'Unknown'] (line 244) *)
Definition statusDescOf (r : ResultData) : JS.str :=
  match status r with
  | Some s => match description s with Some d => d | None => JS.lit "Unknown" end
  | None => JS.lit "Unknown"
  end.

(** The display output (lines 240-251). *)
Definition displayOutput (r : ResultData) : JS.str :=
  let compileOutput := safeDecode (compile_output r) in
  let stderr := safeDecode (stderr r) in
  let stdout := safeDecode (stdout r) in
  if JS.truthy compileOutput && JS.truthy (JS.trim compileOutput) then compileOutput
  else if JS.truthy stderr && JS.truthy (JS.trim stderr) then stderr
  else if JS.truthy stdout && JS.truthy (JS.trim stdout) then stdout
  else JS.lit "No output".

(** Lines 231-264: the response once the loop is left. *)
Definition respond (tok : JS.str) (exit : loopExit) : Response :=
  match exit with
  | Thrown details =>
      {| statusCode := 500; json := ErrorDetails (JS.lit "Execution failed") details |}
  | Finished None =>
      {| statusCode := 500; json := Error (JS.lit "No result received from Judge0") |}
  | Finished (Some r) =>
      {| statusCode := 200;
         json := Executed (displayOutput r) (statusDescOf r) tok r |}
  end.

(** Lines 207-258: polling for the job [tok] and answering. *)
Definition pollAndRespond (env : Env) (tok : JS.str) (w : World)
  : option (Response * World) :=
  let startAt := now w in
  match pollLoop pollFuel env tok startAt 0 None w with
  | Some (exit, w') => Some (respond tok exit, w')
  | None => None
  end.

(** Lines 185-258: the submission, then polling. *)
Definition submitAndPoll (env : Env) (code : JS.str) (langId : value) (w : World)
  : option (Response * World) :=
  let w2 := request (PostSubmission code langId) 0 w in
  match submission env code langId with
  | Failure details =>
      Some ({| statusCode := 500;
               json := ErrorDetails (JS.lit "Execution failed") details |}, w2)
  | Answer created =>
      match created with
      | Some {| token := Some tok |} =>
          if negb (JS.truthy tok) then
            Some ({| statusCode := 500;
                     json := ErrorRaw (JS.lit "Judge0 did not return a token") created |}, w2)
          else pollAndRespond env tok w2
      | _ =>
          Some ({| statusCode := 500;
                   json := ErrorRaw (JS.lit "Judge0 did not return a token") created |}, w2)
      end
  end.

(** [POST /api/execute] (lines 141-265) *)
Definition execute (env : Env) (body : Body) (w : World)
  : option (Response * World) :=
  match code body, language body with
  | Some code, Some language =>
      if negb (JS.truthy code) || negb (JS.truthy language) then
        Some ({| statusCode := 400; json := Error (JS.lit "Code and language required") |}, w)
      else
        let (langId, w1) := resolveLanguage env language w in
        if negb (truthyValue langId) then
          Some ({| statusCode := 400;
                   json := Error (JS.lit "Unsupported language: " ++ language) |}, w1)
        else submitAndPoll env code langId w1
  | _, _ =>
      Some ({| statusCode := 400; json := Error (JS.lit "Code and language required") |}, w)
  end.

(** A request that gets as far as the poll loop: both fields are given, the
    language resolves, and the judge answers the submission with the token
    [tok]; [w2] is the world when polling starts. *)
Definition reachesPolling (env : Env) (body : Body) (w : World)
    (tok : JS.str) (w2 : World) : Prop :=
  exists src label langId w1,
    code body = Some src /\ language body = Some label
    /\ JS.truthy src = true /\ JS.truthy label = true
    /\ resolveLanguage env label w = (langId, w1)
    /\ truthyValue langId = true
    /\ submission env src langId = Answer (Some {| token := Some tok |})
    /\ JS.truthy tok = true
    /\ w2 = request (PostSubmission src langId) 0 w1.

End Handlers.

(** ASCII lower-casing, the restriction of [toLowerCase] to ASCII text. *)
Definition asciiLower (s : JS.str) : JS.str :=
  map (fun c => if JS.isUpper c then c + 32 else c) s.

(** The characters the spec calls the base64 alphabet with whitespace:
    letters, digits, ['+'], ['/'], ['='] and white space. *)
Definition base64OrSpace (c : N) : bool :=
  JS.isUpper c || JS.isLower c || JS.isDigit c
  || (c =? 43) || (c =? 47) || (c =? 61) || JS.isWhiteSpace c.

(** Unicode scalar values: code points that are not surrogates. *)
Definition scalar (cp : N) : Prop :=
  cp < 0x110000 /\ ~ (0xD800 <= cp <= 0xDFFF).

(** *** Sample requests and environments *)

Definition snapshot (i : option Z) (desc out : option JS.str) : ResultData :=
  {| status := Some {| id := i; description := desc |};
     compile_output := None; stderr := None; stdout := out |}.

Definition startWorld : World := {| now := 1700000000000; calls := [] |}.

Definition printOne : Body :=
  {| code := Some (JS.lit "print(1)"); language := Some (JS.lit "python") |}.

Definition cobolRequest : Body :=
  {| code := Some (JS.lit "DISPLAY 1."); language := Some (JS.lit "cobol") |}.

Definition noCodeRequest : Body :=
  {| code := None; language := Some (JS.lit "python") |}.

Definition jobToken : JS.str := JS.lit "d85cd024".

(** The judge queues the job and reports it finished at the second poll. *)
Definition twoPollEnv : Env := {|
  generateContent := fun _ => Answer (Some (JS.lit "ok"));
  languages := Answer (Some []);
  submission := fun _ _ => Answer (Some {| token := Some jobToken |});
  poll := fun k =>
    match k with
    | O => Answer (Some (snapshot (Some 1%Z) (Some (JS.lit "In Queue")) None))
    | _ => Answer (Some (snapshot (Some 3%Z) (Some (JS.lit "Accepted"))
                                  (Some (JS.lit "1"))))
    end;
  pollLatency := fun _ => 120;
  sleepOvershoot := fun _ => 3
|}.

(** The job stays in processing; every poll takes five seconds. *)
Definition stuckEnv : Env := {|
  generateContent := fun _ => Answer (Some (JS.lit "ok"));
  languages := Answer (Some []);
  submission := fun _ _ => Answer (Some {| token := Some jobToken |});
  poll := fun _ => Answer (Some (snapshot (Some 2%Z) (Some (JS.lit "Processing")) None));
  pollLatency := fun _ => 5000;
  sleepOvershoot := fun _ => 0
|}.

(** The first poll brings a snapshot, every later one an empty body; each
    takes ten seconds. *)
Definition lostSnapshotEnv : Env := {|
  generateContent := fun _ => Answer (Some (JS.lit "ok"));
  languages := Answer (Some []);
  submission := fun _ _ => Answer (Some {| token := Some jobToken |});
  poll := fun k =>
    match k with
    | O => Answer (Some (snapshot (Some 1%Z) (Some (JS.lit "In Queue")) None))
    | _ => Answer None
    end;
  pollLatency := fun _ => 10000;
  sleepOvershoot := fun _ => 0
|}.

(** Every poll brings a result without a [status] object. *)
Definition noStatusEnv : Env := {|
  generateContent := fun _ => Answer (Some (JS.lit "ok"));
  languages := Answer (Some []);
  submission := fun _ _ => Answer (Some {| token := Some jobToken |});
  poll := fun _ =>
    Answer (Some {| status := None; compile_output := None; stderr := None;
                    stdout := Some (JS.lit "partial") |});
  pollLatency := fun _ => 5000;
  sleepOvershoot := fun _ => 0
|}.

(** The catalog cannot be reached. *)
Definition offlineCatalogEnv : Env := {|
  generateContent := fun _ => Answer (Some (JS.lit "ok"));
  languages := Failure (JS.lit "Network Error");
  submission := fun _ _ => Answer (Some {| token := Some jobToken |});
  poll := fun _ => Answer (Some (snapshot (Some 3%Z) (Some (JS.lit "Accepted")) None));
  pollLatency := fun _ => 120;
  sleepOvershoot := fun _ => 3
|}.

(* ================================================================== *)
(** ** Notions for the further properties *)
(* ================================================================== *)

(** The 64 characters of the standard base64 alphabet. *)
Definition isBase64Alphabet (c : N) : bool :=
  JS.isUpper c || JS.isLower c || JS.isDigit c || (c =? 43) || (c =? 47).

(** The decoder's view of a character it neither decodes nor stops at. *)
Definition skipped (c : N) : Prop :=
  (Buffer.lowByte c =? 61) = false /\ Buffer.unbase64 c = None.

(** The decoder's invariant: whatever octets of the allowed ranges complete
    an open sequence, the code point they give is a scalar value. *)
Fixpoint completes (need : nat) (cp lo hi : N) : Prop :=
  forall x, lo <= x <= hi ->
    match need with
    | S (S n as m) => completes m (cp * 64 + x mod 64) 0x80 0xBF
    | _ => scalar (cp * 64 + x mod 64)
    end.

Definition stateOk (st : Buffer.utf8State) : Prop :=
  match st with
  | Buffer.Idle => True
  | Buffer.Cont cp need lo hi => completes need cp lo hi
  end.

(** The judge stops answering at the second poll. *)
Definition brokenPollEnv : Env := {|
  generateContent := fun _ => Failure (JS.lit "quota exceeded");
  languages := Answer (Some []);
  submission := fun _ _ => Answer (Some {| token := Some jobToken |});
  poll := fun k =>
    match k with
    | O => Answer (Some (snapshot (Some 1%Z) (Some (JS.lit "In Queue")) None))
    | _ => Failure (JS.lit "socket hang up")
    end;
  pollLatency := fun _ => 120;
  sleepOvershoot := fun _ => 3
|}.

(** A catalog of three entries; the judge answers at once. *)
Definition catalogEnv : Env := {|
  generateContent := fun _ => Answer (Some ([32; 32] ++ JS.lit "x = 1" ++ [10]));
  languages := Answer (Some
    [ {| lang_id := Some 46%Z; lang_name := Some (JS.lit "Bash (5.0.0)");
         lang_slug := None |};
      {| lang_id := Some 72%Z; lang_name := Some (JS.lit "Ruby (2.7.0)");
         lang_slug := None |};
      {| lang_id := Some 73%Z; lang_name := Some (JS.lit "Rust (1.40.0)");
         lang_slug := None |} ]);
  submission := fun _ _ => Answer (Some {| token := None |});
  poll := fun _ => Answer (Some (snapshot (Some 3%Z) (Some (JS.lit "Accepted")) None));
  pollLatency := fun _ => 120;
  sleepOvershoot := fun _ => 3
|}.

Definition rubyRequest : Body :=
  {| code := Some (JS.lit "puts 1"); language := Some (JS.lit "ruby") |}.

(** ** The explanation formatter of the editor page
    ([src/frontend/js/monaco-loader.js], lines 238-244) *)

Module Page.

(** ECMAScript [LineTerminator]: what [.] does not match and what [^]
    follows under the [m] flag. *)
Definition isLineTerminator (c : N) : bool :=
  (c =? 10) || (c =? 13) || (c =? 0x2028) || (c =? 0x2029).

(** A pattern at one position: given the code unit before it, if any, and
    the text from there on, the replacement and the length of the match. *)
Definition matcher := option N -> JS.str -> option (JS.str * nat).

(** [replace] with a global pattern that matches no empty string:
    the leftmost match is replaced and the search goes on behind it.
    [skip] counts the code units of the current match still to pass. *)
Fixpoint replaceFrom (m : matcher) (skip : nat) (prev : option N) (s : JS.str)
  : JS.str :=
  match s with
  | [] => []
  | c :: s' =>
      match skip with
      | S k => replaceFrom m k (Some c) s'
      | O =>
          match m prev s with
          | Some (replacement, len) =>
              replacement ++ replaceFrom m (pred len) (Some c) s'
          | None => c :: replaceFrom m 0 (Some c) s'
          end
      end
  end.

Definition replaceGlobal (m : matcher) (s : JS.str) : JS.str :=
  replaceFrom m 0 None s.

(** The greedy capture of any characters: the run of code units up to
    the next line terminator. *)
Fixpoint restOfLine (s : JS.str) : JS.str :=
  match s with
  | [] => []
  | c :: s' => if isLineTerminator c then [] else c :: restOfLine s'
  end.

(** The lazy capture of any characters before [delim]: the shortest run
    without a line terminator after which [delim] stands. *)
Fixpoint lazyUntil (delim s : JS.str) : option JS.str :=
  if JS.startsWith delim s then Some []
  else match s with
       | [] => None
       | c :: s' =>
           if isLineTerminator c then None
           else match lazyUntil delim s' with
                | Some cap => Some (c :: cap)
                | None => None
                end
       end.

(** First pass (line 240): at the start of a line, a hash, a space and
    the rest of the line become a heading. *)
Definition heading : matcher := fun prev s =>
  let atLineStart :=
    match prev with None => true | Some p => isLineTerminator p end in
  match s with
  | c :: d :: rest =>
      if (c =? 35) && (d =? 32) && atLineStart then
        let cap := restOfLine rest in
        Some (JS.lit "<h3>" ++ cap ++ JS.lit "</h3>", (2 + List.length cap)%nat)
      else None
  | _ => None
  end.

(** Second pass (line 241): text between two pairs of asterisks on one
    line becomes strong. *)
Definition strong : matcher := fun _ s =>
  match s with
  | c :: d :: rest =>
      if (c =? 42) && (d =? 42) then
        match lazyUntil [42; 42] rest with
        | Some cap =>
            Some (JS.lit "<strong>" ++ cap ++ JS.lit "</strong>",
                  (4 + List.length cap)%nat)
        | None => None
        end
      else None
  | _ => None
  end.

(** Third pass (line 242): text between two backticks on one line
    becomes code. *)
Definition inlineCode : matcher := fun _ s =>
  match s with
  | c :: rest =>
      if c =? 96 then
        match lazyUntil [96] rest with
        | Some cap =>
            Some (JS.lit "<code>" ++ cap ++ JS.lit "</code>",
                  (2 + List.length cap)%nat)
        | None => None
        end
      else None
  | [] => None
  end.

(** Fourth pass (line 243): every line feed becomes a break. *)
Definition lineBreak : matcher := fun _ s =>
  match s with
  | c :: _ => if c =? 10 then Some (JS.lit "<br>", 1%nat) else None
  | [] => None
  end.

(** [formatExplanation] (lines 238-244) *)
Definition formatExplanation (text : JS.str) : JS.str :=
  replaceGlobal lineBreak
    (replaceGlobal inlineCode
       (replaceGlobal strong
          (replaceGlobal heading text))).

End Page.


(** A character that starts none of the four patterns. *)
Definition plainChar (c : N) : bool :=
  negb ((c =? 35) || (c =? 42) || (c =? 96) || (c =? 10)).

(** A character that is part of none of the four patterns' own text. *)
Definition contentChar (c : N) : bool :=
  negb ((c =? 35) || (c =? 32) || (c =? 42) || (c =? 96) || (c =? 10)).

(** A pattern that loses no content: a match lies within the text, and
    what it covers, pattern text apart, is in the replacement. *)
Definition keepsContent (m : Page.matcher) : Prop :=
  forall prev s replacement len,
    m prev s = Some (replacement, len) ->
    (1 <= len <= List.length s)%nat
    /\ forall c, In c (firstn len s) -> contentChar c = true -> In c replacement.

(* ================================================================== *)
(** ** Strings and codecs: lemmas *)
(* ================================================================== *)

Module JSFacts.
Import JS.

Lemma dropWhile_keeps p s :
  Forall (fun c => p c = false) s -> dropWhile p s = s.
Proof.
  intros H. destruct H as [|c s Hc _]; simpl; [reflexivity|].
  now rewrite Hc.
Qed.

Lemma dropWhileEnd_keeps p s :
  Forall (fun c => p c = false) s -> dropWhileEnd p s = s.
Proof.
  intros H. unfold dropWhileEnd.
  rewrite dropWhile_keeps by now apply Forall_rev.
  apply rev_involutive.
Qed.

Lemma dropWhile_In p s c :
  In c s -> p c = false -> In c (dropWhile p s).
Proof.
  induction s as [|a s IH]; simpl; intros Hin Hp; [contradiction|].
  destruct (p a) eqn:Ha.
  - destruct Hin as [->|Hin]; [congruence | now apply IH].
  - exact Hin.
Qed.

Lemma dropWhileEnd_In p s c :
  In c s -> p c = false -> In c (dropWhileEnd p s).
Proof.
  intros Hin Hp. unfold dropWhileEnd.
  apply in_rev. rewrite rev_involutive.
  apply dropWhile_In; [now apply in_rev in Hin | exact Hp].
Qed.

(** [trim] removes white space only. *)
Lemma trim_In s c : In c s -> isWhiteSpace c = false -> In c (trim s).
Proof.
  intros Hin Hc. unfold trim.
  apply dropWhileEnd_In; [apply dropWhile_In|]; assumption.
Qed.

Lemma trim_keeps s :
  Forall (fun c => isWhiteSpace c = false) s -> trim s = s.
Proof.
  intros H. unfold trim.
  rewrite (dropWhile_keeps _ _ H). now apply dropWhileEnd_keeps.
Qed.

Lemma trim_nil : trim [] = [].
Proof. reflexivity. Qed.

Lemma truthy_true s : truthy s = true <-> s <> [].
Proof. destruct s; simpl; split; congruence. Qed.

Lemma truthy_trim s : truthy (trim s) = true -> truthy s = true.
Proof. destruct s; [rewrite trim_nil|]; simpl; congruence. Qed.

(** A property of all numbers below [n], checked by running through them. *)
Lemma below_cases (n : nat) (p : N -> bool) :
  forallb p (map N.of_nat (seq 0 n)) = true ->
  forall v, v < N.of_nat n -> p v = true.
Proof.
  intros H v Hv. rewrite forallb_forall in H. apply H.
  apply in_map_iff. exists (N.to_nat v). split; [lia|].
  apply in_seq. lia.
Qed.

End JSFacts.

Module BufferFacts.
Import JS Buffer JSFacts.

Lemma unbase64_b64char v : v < 64 -> unbase64 (b64char v) = Some v.
Proof.
  intros Hv.
  pose proof (below_cases 64
    (fun v => match unbase64 (b64char v) with
              | Some u => u =? v
              | None => false
              end) eq_refl v Hv) as H.
  cbv beta in H. destruct (unbase64 (b64char v)); [|discriminate].
  apply N.eqb_eq in H. now subst.
Qed.

Lemma lowByte_small c : c < 256 -> lowByte c = c.
Proof. apply N.mod_small. Qed.

Lemma b64char_not_pad v : v < 64 -> (lowByte (b64char v) =? 61) = false.
Proof.
  intros Hv.
  apply negb_true_iff.
  exact (below_cases 64 (fun v => negb (lowByte (b64char v) =? 61)) eq_refl v Hv).
Qed.

Lemma b64char_class v : v < 64 -> inBase64Class (b64char v) = true.
Proof. exact (below_cases 64 (fun v => inBase64Class (b64char v)) eq_refl v). Qed.

Lemma b64char_not_space v : v < 64 -> isWhiteSpace (b64char v) = false.
Proof.
  intros Hv. apply negb_true_iff.
  exact (below_cases 64 (fun v => negb (isWhiteSpace (b64char v))) eq_refl v Hv).
Qed.

(** Induction over a buffer three octets at a time, as the encoder reads it. *)
Lemma triples_ind (P : bytes -> Prop) :
  P [] -> (forall x, P [x]) -> (forall x y, P [x; y]) ->
  (forall x y z rest, P rest -> P (x :: y :: z :: rest)) ->
  forall b, P b.
Proof.
  intros H0 H1 H2 H3.
  assert (H : forall b, P b /\ (forall x, P (x :: b)) /\ (forall x y, P (x :: y :: b))).
  { induction b as [|z b (IH0 & IH1 & IH2)]; [now auto|].
    repeat split; auto. }
  intros b. apply H.
Qed.

Lemma sextets_quad v1 v2 v3 v4 rest :
  v1 < 64 -> v2 < 64 -> v3 < 64 -> v4 < 64 ->
  sextets (b64char v1 :: b64char v2 :: b64char v3 :: b64char v4 :: rest)
  = v1 :: v2 :: v3 :: v4 :: sextets rest.
Proof.
  intros. cbn [sextets].
  now rewrite !b64char_not_pad, !unbase64_b64char by assumption.
Qed.

(** Decoding what the encoder wrote gives the octets back. *)
Lemma fromBase64_toBase64 b : octets b -> fromBase64 (toBase64 b) = b.
Proof.
  unfold fromBase64, octets.
  induction b as [|x|x y|x y z rest IH] using triples_ind; intros Hb.
  - reflexivity.
  - inversion_clear Hb as [|? ? Hx _]. cbn [toBase64 sextets].
    change (lowByte 61) with 61.
    rewrite !b64char_not_pad, !unbase64_b64char by lia.
    cbn [N.eqb Pos.eqb groupOctets]. f_equal. lia.
  - inversion_clear Hb as [|? ? Hx Hb']. inversion_clear Hb' as [|? ? Hy _].
    cbn [toBase64 sextets].
    change (lowByte 61) with 61.
    rewrite !b64char_not_pad, !unbase64_b64char by lia.
    cbn [N.eqb Pos.eqb groupOctets]. repeat (f_equal; try lia).
  - inversion_clear Hb as [|? ? Hx Hb']. inversion_clear Hb' as [|? ? Hy Hb''].
    inversion_clear Hb'' as [|? ? Hz Hrest].
    cbn [toBase64]. rewrite sextets_quad by lia.
    cbn [groupOctets]. rewrite (IH Hrest).
    repeat (f_equal; try lia).
Qed.

Lemma toBase64_class b :
  octets b -> forallb inBase64Class (toBase64 b) = true.
Proof.
  unfold octets.
  induction b as [|x|x y|x y z rest IH] using triples_ind; intros Hb.
  - reflexivity.
  - inversion_clear Hb. cbn [toBase64 forallb].
    now rewrite !b64char_class by lia.
  - inversion_clear Hb as [|? ? Hx Hb']. inversion_clear Hb'.
    cbn [toBase64 forallb]. now rewrite !b64char_class by lia.
  - inversion_clear Hb as [|? ? Hx Hb']. inversion_clear Hb' as [|? ? Hy Hb''].
    inversion_clear Hb'' as [|? ? Hz Hrest].
    cbn [toBase64 forallb]. rewrite !b64char_class by lia. now rewrite IH.
Qed.

Lemma toBase64_no_space b :
  octets b -> Forall (fun c => isWhiteSpace c = false) (toBase64 b).
Proof.
  unfold octets.
  induction b as [|x|x y|x y z rest IH] using triples_ind; intros Hb.
  - constructor.
  - inversion_clear Hb. cbn [toBase64].
    repeat constructor; apply b64char_not_space; lia.
  - inversion_clear Hb as [|? ? Hx Hb']. inversion_clear Hb'.
    cbn [toBase64]. repeat constructor; apply b64char_not_space; lia.
  - inversion_clear Hb as [|? ? Hx Hb']. inversion_clear Hb' as [|? ? Hy Hb''].
    inversion_clear Hb'' as [|? ? Hz Hrest].
    cbn [toBase64]. repeat (constructor; [apply b64char_not_space; lia|]).
    now apply IH.
Qed.

Lemma toBase64_truthy b : b <> [] -> truthy (toBase64 b) = true.
Proof.
  destruct b as [|x [|y [|z rest]]]; [congruence| | |]; reflexivity.
Qed.

(** Comparisons that [lia] settles are replaced by their value. *)
Ltac decide_cmp :=
  repeat match goal with
  | |- context [?a <=? ?b] =>
      first [ replace (a <=? b) with true by (symmetry; apply N.leb_le; lia)
            | replace (a <=? b) with false by (symmetry; apply N.leb_gt; lia) ]
  | |- context [?a <? ?b] =>
      first [ replace (a <? b) with true by (symmetry; apply N.ltb_lt; lia)
            | replace (a <? b) with false by (symmetry; apply N.ltb_ge; lia) ]
  | |- context [?a =? ?b] =>
      first [ replace (a =? b) with true by (symmetry; apply N.eqb_eq; lia)
            | replace (a =? b) with false by (symmetry; apply N.eqb_neq; lia) ]
  end.

Ltac utf8_go :=
  repeat (progress (cbn [utf8Run app andb orb negb];
                    unfold utf8Step, utf8Lead;
                    decide_cmp; cbv beta iota)).

(** The decoder reads the encoding of a scalar value back as that value. *)
Lemma utf8Run_octets cp rest :
  scalar cp -> utf8Run Idle (utf8Octets cp ++ rest) = cp :: utf8Run Idle rest.
Proof.
  intros [Hmax Hsur]. unfold utf8Octets.
  destruct (N.ltb_spec cp 0x80) as [H1|H1].
  { utf8_go. reflexivity. }
  destruct (N.ltb_spec cp 0x800) as [H2|H2].
  { assert (Hcp : cp = cp / 64 * 64 + cp mod 64) by lia.
    assert (Hq : 2 <= cp / 64 < 32) by lia.
    assert (Hl : cp mod 64 < 64) by lia.
    revert Hcp Hq Hl. generalize (cp / 64) (cp mod 64). intros q l Hcp Hq Hl.
    utf8_go. f_equal. lia. }
  destruct (N.ltb_spec cp 0x10000) as [H3|H3].
  { assert (Hcp : cp = (cp / 4096 * 64 + (cp / 64) mod 64) * 64 + cp mod 64) by lia.
    assert (Hq : cp / 4096 < 16) by lia.
    assert (Hm : (cp / 64) mod 64 < 64) by lia.
    assert (Hl : cp mod 64 < 64) by lia.
    assert (Hlo : cp / 4096 = 0 -> 32 <= (cp / 64) mod 64) by lia.
    assert (Hhi : cp / 4096 = 13 -> (cp / 64) mod 64 < 32) by lia.
    revert Hcp Hq Hm Hl Hlo Hhi.
    generalize (cp / 4096) ((cp / 64) mod 64) (cp mod 64).
    intros q m l Hcp Hq Hm Hl Hlo Hhi.
    assert (Hc : q = 0 \/ q = 13 \/ (q <> 0 /\ q <> 13)) by lia.
    destruct Hc as [Hc|[Hc|Hc]]; utf8_go; f_equal; lia. }
  assert (Hcp : cp = ((cp / 262144 * 64 + (cp / 4096) mod 64) * 64
                      + (cp / 64) mod 64) * 64 + cp mod 64) by lia.
  assert (Hq : cp / 262144 < 5) by lia.
  assert (Ha : (cp / 4096) mod 64 < 64) by lia.
  assert (Hm : (cp / 64) mod 64 < 64) by lia.
  assert (Hl : cp mod 64 < 64) by lia.
  assert (Hlo : cp / 262144 = 0 -> 16 <= (cp / 4096) mod 64) by lia.
  assert (Hhi : cp / 262144 = 4 -> (cp / 4096) mod 64 < 16) by lia.
  revert Hcp Hq Ha Hm Hl Hlo Hhi.
  generalize (cp / 262144) ((cp / 4096) mod 64) ((cp / 64) mod 64) (cp mod 64).
  intros q a m l Hcp Hq Ha Hm Hl Hlo Hhi.
  assert (Hc : q = 0 \/ q = 4 \/ (q <> 0 /\ q <> 4)) by lia.
  destruct Hc as [Hc|[Hc|Hc]]; utf8_go; f_equal; lia.
Qed.

Lemma toStringUtf8_octets cp rest :
  scalar cp ->
  toStringUtf8 (utf8Octets cp ++ rest) = utf16Units cp ++ toStringUtf8 rest.
Proof.
  intros H. unfold toStringUtf8. now rewrite utf8Run_octets.
Qed.

Lemma utf8Octets_octets cp : cp < 0x110000 -> octets (utf8Octets cp).
Proof.
  intros H. unfold utf8Octets, octets.
  destruct (cp <? 0x80) eqn:H1; [apply N.ltb_lt in H1|apply N.ltb_ge in H1].
  { repeat constructor; lia. }
  destruct (cp <? 0x800) eqn:H2; [apply N.ltb_lt in H2|apply N.ltb_ge in H2].
  { repeat constructor; lia. }
  destruct (cp <? 0x10000) eqn:H3; [apply N.ltb_lt in H3|apply N.ltb_ge in H3];
    repeat constructor; lia.
Qed.

Lemma utf8Octets_nonempty cp : utf8Octets cp <> [].
Proof.
  unfold utf8Octets.
  destruct (cp <? 0x80), (cp <? 0x800), (cp <? 0x10000); discriminate.
Qed.

Lemma fromUtf8_nonempty s : s <> [] -> fromUtf8 s <> [].
Proof.
  destruct s as [|c rest]; [congruence|]. intros _ H. cbn [fromUtf8] in H.
  destruct (isHighSurrogate c).
  - destruct rest as [|d rest']; [now apply utf8Octets_nonempty in H|].
    destruct (isLowSurrogate d);
      apply app_eq_nil in H; destruct H as [H _];
      now apply utf8Octets_nonempty in H.
  - destruct (isLowSurrogate c);
      apply app_eq_nil in H; destruct H as [H _];
      now apply utf8Octets_nonempty in H.
Qed.

(** One code unit outside the surrogate range. *)
Lemma bmp_unit c :
  isHighSurrogate c = false -> isLowSurrogate c = false ->
  (c <? 0x10000) = true ->
  scalar c /\ utf16Units c = [c].
Proof.
  unfold isHighSurrogate, isLowSurrogate, scalar, utf16Units.
  intros Hh Hl Hc. rewrite Hc. apply N.ltb_lt in Hc.
  apply andb_false_iff in Hh, Hl.
  rewrite !N.leb_gt in Hh, Hl. split; [lia | reflexivity].
Qed.

(** A surrogate pair and the code point it stands for. *)
Lemma surrogate_pair c d :
  isHighSurrogate c = true -> isLowSurrogate d = true ->
  scalar (0x10000 + (c - 0xD800) * 1024 + (d - 0xDC00))
  /\ utf16Units (0x10000 + (c - 0xD800) * 1024 + (d - 0xDC00)) = [c; d].
Proof.
  unfold isHighSurrogate, isLowSurrogate, scalar, utf16Units.
  intros Hh Hl. apply andb_true_iff in Hh, Hl.
  rewrite !N.leb_le in Hh, Hl.
  set (cp := 0x10000 + (c - 0xD800) * 1024 + (d - 0xDC00)).
  assert (Hcp : 0x10000 <= cp < 0x110000) by (subst cp; lia).
  replace (cp <? 0x10000) with false by (symmetry; apply N.ltb_ge; lia).
  split; [lia|]. subst cp. f_equal; [lia|]. f_equal. lia.
Qed.

Lemma wellFormed_cons c rest :
  wellFormed (c :: rest)
  = if isHighSurrogate c then
      match rest with
      | d :: rest' => isLowSurrogate d && wellFormed rest'
      | [] => false
      end
    else negb (isLowSurrogate c) && (c <? 0x10000) && wellFormed rest.
Proof. reflexivity. Qed.

Lemma fromUtf8_cons c rest :
  fromUtf8 (c :: rest)
  = if isHighSurrogate c then
      match rest with
      | d :: rest' =>
          if isLowSurrogate d then
            utf8Octets (0x10000 + (c - 0xD800) * 1024 + (d - 0xDC00))
            ++ fromUtf8 rest'
          else utf8Octets replacement ++ fromUtf8 rest
      | [] => utf8Octets replacement
      end
    else if isLowSurrogate c then utf8Octets replacement ++ fromUtf8 rest
    else utf8Octets c ++ fromUtf8 rest.
Proof. reflexivity. Qed.

(** Writing a well-formed string as UTF-8 and reading it back is the
    identity, and what is written are octets. *)
Lemma utf8_roundtrip s :
  wellFormed s = true ->
  toStringUtf8 (fromUtf8 s) = s /\ octets (fromUtf8 s).
Proof.
  enough (H : (wellFormed s = true ->
               toStringUtf8 (fromUtf8 s) = s /\ octets (fromUtf8 s))
              /\ forall c, wellFormed (c :: s) = true ->
                 toStringUtf8 (fromUtf8 (c :: s)) = c :: s
                 /\ octets (fromUtf8 (c :: s))) by apply H.
  induction s as [|d s [IH1 IH2]].
  - split; [intros _; split; [reflexivity | constructor]|].
    intros c. cbn [wellFormed fromUtf8].
    destruct (isHighSurrogate c) eqn:Hh; [discriminate|].
    destruct (isLowSurrogate c) eqn:Hl; [discriminate|].
    cbn [negb andb]. rewrite andb_true_r. intros Hc.
    destruct (bmp_unit c Hh Hl Hc) as [Hs Hu].
    rewrite toStringUtf8_octets, Hu by assumption.
    split; [reflexivity|]. rewrite app_nil_r.
    apply utf8Octets_octets, Hs.
  - split; [apply IH2|].
    intros c. rewrite wellFormed_cons, fromUtf8_cons. cbv beta iota.
    destruct (isHighSurrogate c) eqn:Hh.
    + destruct (isLowSurrogate d) eqn:Hl; [|discriminate].
      cbn [andb]. intros Hwf. destruct (IH1 Hwf) as [Hr Ho].
      destruct (surrogate_pair c d Hh Hl) as [Hs Hu].
      rewrite toStringUtf8_octets, Hu, Hr by assumption.
      split; [reflexivity|].
      apply Forall_app. split; [apply utf8Octets_octets, Hs | exact Ho].
    + destruct (isLowSurrogate c) eqn:Hl; [discriminate|].
      cbn [negb andb]. intros Hwf. apply andb_true_iff in Hwf.
      destruct Hwf as [Hc Hwf]. destruct (IH2 d Hwf) as [Hr Ho].
      destruct (bmp_unit c Hh Hl Hc) as [Hs Hu].
      rewrite toStringUtf8_octets, Hu, Hr by assumption.
      split; [reflexivity|].
      apply Forall_app. split; [apply utf8Octets_octets, Hs | exact Ho].
Qed.

End BufferFacts.

(* ================================================================== *)
(** ** The output decoder *)
(* ================================================================== *)

Module DecoderFacts.
Import JS Buffer JSFacts BufferFacts.

Lemma eqStr_refl s : eqStr s s = true.
Proof. unfold eqStr. now destruct (list_eq_dec N.eq_dec s s). Qed.

(** The base64 text of well-formed UTF-8 passes the round-trip test. *)
Lemma isLikelyBase64_encoded s :
  wellFormed s = true -> s <> [] ->
  isLikelyBase64 (toBase64 (fromUtf8 s)) = true.
Proof.
  intros Hwf Hne. destruct (utf8_roundtrip s Hwf) as [Hr Ho].
  unfold isLikelyBase64.
  rewrite (trim_keeps _ (toBase64_no_space _ Ho)).
  unfold testBase64Chars.
  rewrite toBase64_truthy by now apply fromUtf8_nonempty.
  rewrite toBase64_class by assumption. cbn [andb negb].
  rewrite fromBase64_toBase64, Hr by assumption.
  now destruct (list_eq_dec N.eq_dec _ _).
Qed.

Lemma safeDecode_encoded s :
  wellFormed s = true -> safeDecode (Some (toBase64 (fromUtf8 s))) = s.
Proof.
  intros Hwf. destruct s as [|c s]; [reflexivity|].
  unfold safeDecode. rewrite isLikelyBase64_encoded by (assumption || discriminate).
  destruct (utf8_roundtrip _ Hwf) as [Hr Ho].
  now rewrite fromBase64_toBase64, Hr.
Qed.

(** A character of the class tested on line 49 is a letter, a digit, one of
    [+/=] or white space. *)
Lemma inBase64Class_base64OrSpace c :
  inBase64Class c = true -> base64OrSpace c = true.
Proof.
  unfold inBase64Class, base64OrSpace. intros H.
  destruct (isUpper c), (isLower c), (isDigit c),
    (c =? 43), (c =? 47), (c =? 61); try reflexivity.
  cbn [orb] in *.
  destruct (N.eqb_spec c 13) as [E|_]; [now subst|].
  destruct (N.eqb_spec c 10) as [E|_]; [now subst|discriminate].
Qed.

Lemma isLikelyBase64_plain s c :
  In c s -> base64OrSpace c = false -> isLikelyBase64 s = false.
Proof.
  intros Hin Hc. unfold isLikelyBase64.
  assert (Hsp : isWhiteSpace c = false).
  { unfold base64OrSpace in Hc. now apply orb_false_iff in Hc. }
  assert (Hcl : inBase64Class c = false).
  { destruct (inBase64Class c) eqn:E; [|reflexivity].
    apply inBase64Class_base64OrSpace in E. congruence. }
  assert (Ht : testBase64Chars (trim s) = false).
  { unfold testBase64Chars. apply andb_false_iff. right.
    destruct (forallb inBase64Class (trim s)) eqn:E; [|reflexivity].
    rewrite forallb_forall in E.
    specialize (E c (trim_In s c Hin Hsp)). congruence. }
  now rewrite Ht.
Qed.

End DecoderFacts.

(** The codecs and the decoder on known inputs. *)
Module Examples.
Import JS Buffer.

Example base64_hello :
  toBase64 (fromUtf8 (lit "hello world")) = lit "aGVsbG8gd29ybGQ=".
Proof. reflexivity. Qed.

Example decode_hello : safeDecode (Some (lit "aGVsbG8gd29ybGQ=")) = lit "hello world".
Proof. reflexivity. Qed.

Example decode_padded_lines :
  safeDecode (Some ([32; 32] ++ lit "dGVzdA==" ++ [10])) = lit "test".
Proof. reflexivity. Qed.

(** Text of base64 shape that does not decode to UTF-8 is kept. *)
Example decode_word : safeDecode (Some (lit "done")) = lit "done".
Proof. reflexivity. Qed.

(** Text of base64 shape that does decode to UTF-8 is taken for base64. *)
Example decode_false_positive : safeDecode (Some (lit "AAAA")) = [0; 0; 0].
Proof. reflexivity. Qed.

Example utf8_euro_and_emoji :
  toStringUtf8 [0xE2; 0x82; 0xAC; 0xF0; 0x9F; 0x98; 0x80] = [0x20AC; 0xD83D; 0xDE00].
Proof. reflexivity. Qed.

(** An encoded surrogate is ill-formed: one U+FFFD for each octet. *)
Example utf8_encoded_surrogate :
  toStringUtf8 [0xED; 0xA0; 0x80] = [0xFFFD; 0xFFFD; 0xFFFD].
Proof. reflexivity. Qed.

(** A truncated sequence is replaced as a whole. *)
Example utf8_truncated : toStringUtf8 [0x41; 0xE2; 0x82] = [0x41; 0xFFFD].
Proof. reflexivity. Qed.

Example utf8_lone_surrogate : fromUtf8 [0x41; 0xD800] = [0x41; 0xEF; 0xBF; 0xBD].
Proof. reflexivity. Qed.

Example lookup_python :
  getProperty DEFAULT_LANGUAGE_IDS (lit "python") = Num 71.
Proof. reflexivity. Qed.

Example lookup_ruby : getProperty DEFAULT_LANGUAGE_IDS (lit "ruby") = Undefined.
Proof. reflexivity. Qed.

Example lookup_toString :
  getProperty DEFAULT_LANGUAGE_IDS (lit "toString") = Inherited (lit "toString").
Proof. reflexivity. Qed.

End Examples.

(* ================================================================== *)
(** ** The poll loop *)
(* ================================================================== *)

Section PollLoop.

Variable env : Env.
Variable tok : JS.str.
Variable startAt : N.

(** Whatever the loop function returns is a run of the loop. *)
Lemma pollLoop_sound fuel : forall k rd w exit w',
  pollLoop fuel env tok startAt k rd w = Some (exit, w') ->
  exists n, PollRun env tok startAt k rd w n exit w'.
Proof.
  induction fuel as [|fuel IH]; intros k rd w exit w' H; [discriminate|].
  cbn [pollLoop] in H.
  destruct (N.ltb_spec (now w - startAt) timeoutMs) as [Ht|Ht].
  - destruct (poll env k) as [data|details] eqn:Hp.
    + destruct (statusIdOf data >? 2)%Z eqn:Hs.
      * inversion H; subst. exists 1%nat.
        apply RunTerminal; [assumption..|]. lia.
      * apply IH in H. destruct H as [n H]. exists (S n).
        apply RunAgain with (data := data); [assumption..| |assumption]. lia.
    + inversion H; subst. exists 1%nat. now apply RunThrown.
  - inversion H; subst. exists 0%nat. now apply RunTimeout.
Qed.

(** The loop comes to an end: every pass that reaches the timer moves the
    clock by [pollIntervalMs] or more. *)
Lemma pollLoop_total fuel : forall k rd w,
  startAt <= now w ->
  timeoutMs <= (now w - startAt) + pollIntervalMs * N.of_nat fuel ->
  exists r, pollLoop (S fuel) env tok startAt k rd w = Some r.
Proof.
  induction fuel as [|fuel IH]; intros k rd w Hs Hb; cbn [pollLoop].
  - destruct (N.ltb_spec (now w - startAt) timeoutMs) as [Ht|Ht];
      [unfold pollIntervalMs in Hb; lia | eauto].
  - destruct (N.ltb_spec (now w - startAt) timeoutMs) as [Ht|Ht]; [|eauto].
    destruct (poll env k) as [data|details]; [|eauto].
    destruct (statusIdOf data >? 2)%Z; [eauto|].
    apply IH; unfold sleep, request, pollIntervalMs in *; cbn [now]; lia.
Qed.

Lemma PollRun_calls k rd w n exit w' :
  PollRun env tok startAt k rd w n exit w' ->
  calls w' = calls w ++ repeat (GetSubmission tok) n.
Proof.
  induction 1 as [k rd w _|k rd w d _ _|k rd w data _ _ _
                 |k rd w data n exit w' _ _ _ _ IH]; cbn [repeat].
  - now rewrite app_nil_r.
  - reflexivity.
  - reflexivity.
  - rewrite IH. cbn [sleep request calls]. now rewrite <- app_assoc.
Qed.

Lemma PollRun_clock k rd w n exit w' :
  PollRun env tok startAt k rd w n exit w' -> now w <= now w'.
Proof.
  induction 1 as [k rd w _|k rd w d _ _|k rd w data _ _ _
                 |k rd w data n exit w' _ _ _ _ IH];
    cbn [request sleep now] in *; lia.
Qed.

(** Every status request that was followed by another one had been
    answered with a status of 2 or less. *)
Lemma PollRun_before k rd w n exit w' :
  PollRun env tok startAt k rd w n exit w' ->
  forall j, (S j < n)%nat ->
  exists d, poll env (k + j) = Answer d /\ (statusIdOf d <= 2)%Z.
Proof.
  induction 1 as [k rd w _|k rd w d _ _|k rd w data _ _ _
                 |k rd w data n exit w' _ Hp Hs _ IH]; intros j Hj; try lia.
  destruct j as [|j].
  - exists data. now rewrite Nat.add_0_r.
  - destruct (IH j) as [d Hd]; [lia|]. exists d.
    now rewrite Nat.add_succ_r.
Qed.

(** How the loop is left. Without a request the timeout had elapsed at the
    first test; otherwise the exit is decided by the last request: it
    failed, or its answer is the result, with a status above 2 or with the
    timeout elapsed. *)
Lemma PollRun_last k rd w n exit w' :
  PollRun env tok startAt k rd w n exit w' ->
  match n with
  | O => exit = Finished rd /\ w' = w /\ timeoutMs <= now w - startAt
  | S m =>
      match exit with
      | Thrown details => poll env (k + m) = Failure details
      | Finished d =>
          poll env (k + m) = Answer d
          /\ ((2 < statusIdOf d)%Z
              \/ ((statusIdOf d <= 2)%Z /\ timeoutMs <= now w' - startAt))
      end
  end.
Proof.
  induction 1 as [k rd w Ht|k rd w d _ Hp|k rd w data _ Hp Hs
                 |k rd w data n exit w' _ Hp Hs _ IH].
  - auto.
  - now rewrite Nat.add_0_r.
  - rewrite Nat.add_0_r. auto.
  - destruct n as [|m].
    + destruct IH as (-> & -> & Ht). rewrite Nat.add_0_r. auto.
    + now rewrite Nat.add_succ_r.
Qed.

(** An answer with a status above 2 is the last one, and it is the result. *)
Lemma PollRun_terminal k rd w n exit w' :
  PollRun env tok startAt k rd w n exit w' ->
  forall j d, (j < n)%nat -> poll env (k + j) = Answer d ->
  (2 < statusIdOf d)%Z -> n = S j /\ exit = Finished d.
Proof.
  intros Hrun j d Hj Hp Hs.
  assert (Hn : n = S j).
  { destruct (Nat.eq_dec n (S j)) as [E|E]; [assumption|].
    destruct (PollRun_before _ _ _ _ _ _ Hrun j) as (d' & Hd' & Hs'); [lia|].
    rewrite Hp in Hd'. inversion Hd'; subst. lia. }
  split; [assumption|]. subst n.
  pose proof (PollRun_last _ _ _ _ _ _ Hrun) as Hl. cbn beta iota in Hl.
  destruct exit as [d'|details]; [|congruence].
  destruct Hl as [Hl _]. congruence.
Qed.

End PollLoop.

Lemma countCalls_app p l1 l2 :
  countCalls p (l1 ++ l2) = (countCalls p l1 + countCalls p l2)%nat.
Proof. unfold countCalls. now rewrite filter_app, length_app. Qed.

Lemma countCalls_polls p tok n :
  countCalls p (repeat (GetSubmission tok) n)
  = if p (GetSubmission tok) then n else 0%nat.
Proof.
  unfold countCalls. induction n as [|n IH]; cbn [repeat filter].
  - now destruct (p _).
  - destruct (p (GetSubmission tok)); cbn [List.length]; now rewrite ?IH.
Qed.

Lemma countCalls_status_only polls :
  forallb isStatusRequest polls = true -> countCalls isCatalogQuery polls = 0%nat.
Proof.
  unfold countCalls. induction polls as [|c polls IH]; [reflexivity|].
  cbn [forallb filter]. intros H. apply andb_true_iff in H. destruct H as [Hc H].
  destruct c; try discriminate. cbn [isCatalogQuery]. now apply IH.
Qed.

(** Polling always answers: 26 evaluations of the loop test are enough. The
    run starts with the clock at [startAt], so it makes a request. *)
Lemma pollAndRespond_run env tok w :
  exists n exit w',
    pollAndRespond env tok w = Some (respond tok exit, w')
    /\ PollRun env tok (now w) 0 None w (S n) exit w'.
Proof.
  unfold pollAndRespond.
  destruct (pollLoop_total env tok (now w) 25 0 None w) as [[exit w'] Hr].
  { lia. }
  { unfold timeoutMs, pollIntervalMs. lia. }
  change (S 25) with pollFuel in Hr. rewrite Hr.
  destruct (pollLoop_sound _ _ _ _ _ _ _ _ _ Hr) as [n Hrun].
  destruct n as [|n].
  - inversion Hrun; subst. unfold timeoutMs in *. lia.
  - exists n, exit, w'. split; [reflexivity | exact Hrun].
Qed.

(** The submission stage always answers, and what it requests after the
    submission are status requests. *)
Lemma submitAndPoll_total env src langId w :
  exists resp w' polls,
    submitAndPoll env src langId w = Some (resp, w')
    /\ calls w' = calls w ++ PostSubmission src langId :: polls
    /\ forallb isStatusRequest polls = true.
Proof.
  unfold submitAndPoll.
  destruct (submission env src langId) as [[[[tk|]]|]|details];
    try (eexists _, _, []; repeat split; reflexivity).
  destruct (JS.truthy tk); cbn [negb];
    [|eexists _, _, []; repeat split; reflexivity].
  destruct (pollAndRespond_run env tk (request (PostSubmission src langId) 0 w))
    as (n & exit & w' & Hr & Hrun).
  apply PollRun_calls in Hrun. cbn [request calls] in Hrun.
  exists (respond tk exit), w', (repeat (GetSubmission tk) (S n)).
  repeat split; [assumption| |].
  - now rewrite Hrun, <- app_assoc.
  - apply forallb_forall. intros c Hc. apply repeat_spec in Hc. now subst.
Qed.

(* ================================================================== *)
(** ** The handlers: lemmas *)
(* ================================================================== *)

Section HandlerFacts.

Variable toLowerCase : JS.str -> JS.str.

(** Resolution makes no request, or the one catalog query. *)
Lemma resolveLanguage_world env label w v w1 :
  resolveLanguage toLowerCase env label w = (v, w1) ->
  w1 = w \/ w1 = request GetLanguages 0 w.
Proof.
  unfold resolveLanguage.
  destruct (negb (truthyValue (getProperty DEFAULT_LANGUAGE_IDS label))).
  - destruct (languages env) as [[records|]|];
      [destruct (find _ records)|..]; intros H; inversion H; auto.
  - intros H; inversion H; auto.
Qed.

Lemma execute_polling env body w tok w2 :
  reachesPolling toLowerCase env body w tok w2 ->
  execute toLowerCase env body w = pollAndRespond env tok w2.
Proof.
  intros (src & label & langId & w1 & Hc & Hl & Hsrc & Hlabel & Hres & Hid
          & Hsub & Htok & ->).
  unfold execute, submitAndPoll.
  now rewrite Hc, Hl, Hsrc, Hlabel, Hres, Hid, Hsub, Htok.
Qed.

Lemma reachesPolling_calls env body w tok w2 :
  reachesPolling toLowerCase env body w tok w2 ->
  countCalls isSubmission (calls w2) = S (countCalls isSubmission (calls w))
  /\ countCalls isStatusRequest (calls w2) = countCalls isStatusRequest (calls w).
Proof.
  intros (src & label & langId & w1 & _ & _ & _ & _ & Hres & _ & _ & _ & ->).
  cbn [request calls]. rewrite !countCalls_app.
  destruct (resolveLanguage_world _ _ _ _ _ Hres) as [->| ->];
    cbn [request calls]; rewrite ?countCalls_app; cbn; lia.
Qed.

(** The handler always answers. *)
Theorem execute_total env body w : exists r, execute toLowerCase env body w = Some r.
Proof.
  unfold execute.
  destruct (code body) as [src|]; [|eauto].
  destruct (language body) as [label|]; [|eauto].
  destruct (negb (JS.truthy src) || negb (JS.truthy label)); [eauto|].
  destruct (resolveLanguage toLowerCase env label w) as [langId w1].
  destruct (negb (truthyValue langId)); [eauto|].
  destruct (submitAndPoll_total env src langId w1) as (resp & w' & _ & H & _).
  eauto.
Qed.

(** A success response carries the display output of the result it
    reports. *)
Lemma execute_output env body w sc out st tk raw w' :
  execute toLowerCase env body w
  = Some ({| statusCode := sc; json := Executed out st tk raw |}, w') ->
  out = displayOutput raw.
Proof.
  unfold execute.
  destruct (code body) as [src|]; [|discriminate].
  destruct (language body) as [label|]; [|discriminate].
  destruct (negb (JS.truthy src) || negb (JS.truthy label)); [discriminate|].
  destruct (resolveLanguage toLowerCase env label w) as [langId w1].
  destruct (negb (truthyValue langId)); [discriminate|].
  unfold submitAndPoll.
  destruct (submission env src langId) as [[[[tok|]]|]|details];
    try discriminate.
  destruct (negb (JS.truthy tok)); [discriminate|].
  unfold pollAndRespond.
  destruct (pollLoop pollFuel env tok _ 0 None _) as [[exit w'']|];
    [|discriminate].
  destruct exit as [[r|]|details]; cbn [respond]; intros H; inversion H.
  reflexivity.
Qed.

(** The catalog fallback for a label that is no property of the table, own
    or inherited: the first matching record decides. *)
Lemma catalog_first_match env label w records :
  getProperty DEFAULT_LANGUAGE_IDS label = Undefined ->
  languages env = Answer (Some records) ->
  resolveLanguage toLowerCase env label w
  = (match find (matchesLanguage toLowerCase label) records with
     | Some found =>
         match lang_id found with Some n => Num n | None => Undefined end
     | None => Undefined
     end, request GetLanguages 0 w).
Proof.
  intros Hp Hl. unfold resolveLanguage. rewrite Hp, Hl. cbn [truthyValue negb].
  now destruct (find _ records).
Qed.

End HandlerFacts.

(* ================================================================== *)
(** ** Properties of the specification *)
(* ================================================================== *)

Section Claims.

Variable toLowerCase : JS.str -> JS.str.

Lemma truthy_and_trim s :
  JS.truthy s && JS.truthy (JS.trim s) = JS.truthy (JS.trim s).
Proof.
  destruct (JS.truthy (JS.trim s)) eqn:E; [|apply andb_false_r].
  now rewrite (JSFacts.truthy_trim _ E).
Qed.

(** C1. The display output of a job result follows a fixed precedence: the
    decoded compile output if it is non-empty after trimming, else the
    decoded stderr if it is non-empty after trimming, else the decoded
    stdout if it is non-empty after trimming, else the literal
    ["No output"]; and this is the [output] of every success response. *)
Theorem display_output_precedence (r : ResultData) :
  let co := safeDecode (compile_output r) in
  let se := safeDecode (stderr r) in
  let so := safeDecode (stdout r) in
  (JS.trim co <> [] -> displayOutput r = co)
  /\ (JS.trim co = [] -> JS.trim se <> [] -> displayOutput r = se)
  /\ (JS.trim co = [] -> JS.trim se = [] -> JS.trim so <> [] ->
      displayOutput r = so)
  /\ (JS.trim co = [] -> JS.trim se = [] -> JS.trim so = [] ->
      displayOutput r = JS.lit "No output")
  /\ (forall env body w sc out st tk w',
        execute toLowerCase env body w
        = Some ({| statusCode := sc; json := Executed out st tk r |}, w') ->
        out = displayOutput r).
Proof.
  intros co se so.
  assert (E : displayOutput r
              = if JS.truthy (JS.trim co) then co
                else if JS.truthy (JS.trim se) then se
                else if JS.truthy (JS.trim so) then so
                else JS.lit "No output").
  { unfold displayOutput. fold co se so. now rewrite !truthy_and_trim. }
  repeat split.
  - intros H. apply JSFacts.truthy_true in H. now rewrite E, H.
  - intros Hc H. apply JSFacts.truthy_true in H. now rewrite E, Hc, H.
  - intros Hc He H. apply JSFacts.truthy_true in H. now rewrite E, Hc, He, H.
  - intros Hc He Ho. now rewrite E, Hc, He, Ho.
  - intros env body w sc out st tk w' H.
    now apply execute_output in H.
Qed.

(** C3. A string with at least one character outside the base64 alphabet
    (letters, digits, [+], [/], [=]) and white space is returned by the
    output decoder as it is. *)
Theorem safeDecode_plain_text (s : JS.str) (c : N) :
  In c s -> base64OrSpace c = false -> safeDecode (Some s) = s.
Proof.
  intros Hin Hc. unfold safeDecode.
  now rewrite (DecoderFacts.isLikelyBase64_plain s c Hin Hc).
Qed.

(** C4. Status requests are made only while every answer so far had a
    status of 2 or less, and an answer with a status of 3 or more ends the
    polling and is the result reported. In particular, when the first
    answer is not terminal, the second is, and the second request starts
    within the timeout, exactly two status requests and one submission are
    made and the success response carries the second answer. *)
Theorem polling_stops_at_terminal_status env body w tok w2 :
  reachesPolling toLowerCase env body w tok w2 ->
  exists resp w' n,
    execute toLowerCase env body w = Some (resp, w')
    /\ calls w' = calls w2 ++ repeat (GetSubmission tok) n
    /\ countCalls isStatusRequest (calls w')
       = (countCalls isStatusRequest (calls w) + n)%nat
    /\ countCalls isSubmission (calls w')
       = (countCalls isSubmission (calls w) + 1)%nat
    /\ (forall j, (S j < n)%nat ->
        exists d, poll env j = Answer d /\ (statusIdOf d <= 2)%Z)
    /\ (forall j d, (j < n)%nat -> poll env j = Answer d ->
        (3 <= statusIdOf d)%Z -> n = S j /\ resp = respond tok (Finished d))
    /\ (forall d0 r1,
        poll env 0 = Answer d0 -> (statusIdOf d0 <= 2)%Z ->
        poll env 1 = Answer (Some r1) -> (3 <= statusIdOf (Some r1))%Z ->
        pollLatency env 0 + (pollIntervalMs + sleepOvershoot env 0) < timeoutMs ->
        n = 2%nat
        /\ resp = {| statusCode := 200;
                     json := Executed (displayOutput r1) (statusDescOf r1) tok r1 |}).
Proof.
  intros Hreach.
  destruct (pollAndRespond_run env tok w2) as (m & exit & w' & Hr & Hrun).
  destruct (reachesPolling_calls _ _ _ _ _ _ Hreach) as [Hsub Hst].
  pose proof (PollRun_calls _ _ _ _ _ _ _ _ _ Hrun) as Hcalls.
  exists (respond tok exit), w', (S m).
  split; [now rewrite (execute_polling _ _ _ _ _ _ Hreach)|].
  split; [assumption|].
  split; [rewrite Hcalls, countCalls_app, countCalls_polls, Hst; reflexivity|].
  split; [rewrite Hcalls, countCalls_app, countCalls_polls, Hsub; cbn; lia|].
  split; [apply (PollRun_before _ _ _ _ _ _ _ _ _ Hrun)|].
  split.
  - intros j d Hj Hp Hs.
    destruct (PollRun_terminal _ _ _ _ _ _ _ _ _ Hrun j d Hj Hp) as [-> ->];
      [lia | now split].
  - intros d0 r1 Hp0 Hs0 Hp1 Hs1 Ht.
    assert (H1 : (1 < S m)%nat).
    { destruct m as [|m]; [|lia]. exfalso.
      inversion Hrun as [| | |? ? ? data ? ? ? _ Hp Hs Hnext]; subst;
        try congruence.
      + rewrite Hp0 in *. match goal with H : Answer _ = Answer _ |- _ =>
          inversion H; subst end. lia.
      + inversion Hnext; subst.
        unfold timeoutMs, pollIntervalMs in *. cbn [sleep request now] in *. lia. }
    destruct (PollRun_terminal _ _ _ _ _ _ _ _ _ Hrun 1%nat (Some r1) H1 Hp1)
      as [Hn ->]; [lia|]. now split.
Qed.

(** C5, as amended. When every poll made is answered and none reports a
    status above 2, polling goes on until the 20,000 ms have elapsed, and
    the response is built from the last poll alone: a success response
    with that snapshot if the last poll brought data, the 500 error
    ["No result received from Judge0"] if it brought none. *)
Theorem timeout_answers_from_last_poll env body w tok w2 :
  reachesPolling toLowerCase env body w tok w2 ->
  exists resp w' n,
    execute toLowerCase env body w = Some (resp, w')
    /\ calls w' = calls w2 ++ repeat (GetSubmission tok) n
    /\ ((forall j, (j < n)%nat ->
           exists d, poll env j = Answer d /\ (statusIdOf d <= 2)%Z) ->
        exists m d,
          n = S m /\ poll env m = Answer d
          /\ timeoutMs <= now w' - now w2
          /\ resp = match d with
                    | Some r =>
                        {| statusCode := 200;
                           json := Executed (displayOutput r) (statusDescOf r)
                                     tok r |}
                    | None =>
                        {| statusCode := 500;
                           json := Error (JS.lit "No result received from Judge0") |}
                    end).
Proof.
  intros Hreach.
  destruct (pollAndRespond_run env tok w2) as (m & exit & w' & Hr & Hrun).
  exists (respond tok exit), w', (S m).
  split; [now rewrite (execute_polling _ _ _ _ _ _ Hreach)|].
  split; [now apply PollRun_calls in Hrun|].
  intros Hall. destruct (Hall m) as (d & Hd & Hs); [lia|].
  pose proof (PollRun_last _ _ _ _ _ _ _ _ _ Hrun) as Hl.
  cbn beta iota in Hl. cbn [Nat.add] in Hl.
  destruct exit as [d'|details]; [|congruence].
  destruct Hl as [Hp Ht]. rewrite Hd in Hp. inversion Hp; subst d'.
  exists m, d. split; [reflexivity|]. split; [assumption|]. split.
  - destruct Ht as [Ht|[_ Ht]]; [lia | assumption].
  - now destruct d.
Qed.

(** C6. A label of the static table resolves to the table's identifier,
    and the world is left as it was: no catalog query is made. A request
    with such a label goes straight to the submission, with that
    identifier. *)
Theorem static_table_resolves_locally env label n w :
  In (label, n) DEFAULT_LANGUAGE_IDS ->
  resolveLanguage toLowerCase env label w = (Num n, w)
  /\ forall src, JS.truthy src = true ->
     exists resp w' polls,
       execute toLowerCase env {| code := Some src; language := Some label |} w
       = Some (resp, w')
       /\ calls w' = calls w ++ PostSubmission src (Num n) :: polls
       /\ forallb isStatusRequest polls = true.
Proof.
  intros Hin.
  assert (Hres : resolveLanguage toLowerCase env label w = (Num n, w)
                 /\ JS.truthy label = true /\ truthyValue (Num n) = true).
  { cbn [In DEFAULT_LANGUAGE_IDS] in Hin.
    repeat destruct Hin as [Hin|Hin]; try contradiction;
      inversion Hin; subst; repeat split. }
  destruct Hres as (Hres & Hlabel & Hn).
  split; [exact Hres|].
  intros src Hsrc.
  destruct (submitAndPoll_total env src (Num n) w)
    as (resp & w' & polls & Hs & Hc & Hp).
  exists resp, w', polls. split; [|now split].
  unfold execute. cbn [code language].
  now rewrite Hsrc, Hlabel, Hres, Hn.
Qed.

(** C7, at the failing input. ["constructor"] is no entry of the static
    table, yet for this label no catalog query is made: the lookup finds
    the member inherited from [Object.prototype], and the handler goes on
    to the submission, whatever the catalog holds. *)
Theorem inherited_key_bypasses_catalog env w :
  let body := {| code := Some (JS.lit "print(1)");
                 language := Some (JS.lit "constructor") |} in
  ownProperty DEFAULT_LANGUAGE_IDS (JS.lit "constructor") = None
  /\ resolveLanguage toLowerCase env (JS.lit "constructor") w
     = (Inherited (JS.lit "constructor"), w)
  /\ exists resp w' polls,
       execute toLowerCase env body w = Some (resp, w')
       /\ calls w' = calls w
                     ++ PostSubmission (JS.lit "print(1)")
                          (Inherited (JS.lit "constructor")) :: polls
       /\ forallb isStatusRequest polls = true
       /\ countCalls isCatalogQuery (calls w')
          = countCalls isCatalogQuery (calls w).
Proof.
  intros body. split; [reflexivity|]. split; [reflexivity|].
  destruct (submitAndPoll_total env (JS.lit "print(1)")
              (Inherited (JS.lit "constructor")) w)
    as (resp & w' & polls & Hs & Hc & Hp).
  exists resp, w', polls. repeat split; try assumption.
  rewrite Hc, countCalls_app.
  change (PostSubmission ?a ?b :: polls) with ([PostSubmission a b] ++ polls).
  rewrite countCalls_app, (countCalls_status_only _ Hp). cbn. lia.
Qed.

(** C8. When the catalog query fails, the request ends as it does when the
    catalog has no matching record: with the 400 error
    ["Unsupported language: ..."], after the catalog query alone. *)
Theorem catalog_failure_reads_as_no_match env body src label details w :
  code body = Some src -> language body = Some label ->
  JS.truthy src = true -> JS.truthy label = true ->
  truthyValue (getProperty DEFAULT_LANGUAGE_IDS label) = false ->
  languages env = Failure details ->
  execute toLowerCase env body w
  = Some ({| statusCode := 400;
             json := Error (JS.lit "Unsupported language: " ++ label) |},
          request GetLanguages 0 w)
  /\ forall env' records,
       languages env' = Answer (Some records) ->
       find (matchesLanguage toLowerCase label) records = None ->
       execute toLowerCase env' body w = execute toLowerCase env body w.
Proof.
  intros Hc Hl Hsrc Hlabel Hid Hfail.
  assert (Hu : getProperty DEFAULT_LANGUAGE_IDS label = Undefined).
  { destruct (getProperty DEFAULT_LANGUAGE_IDS label) as [|n|key] eqn:E;
      [reflexivity| |discriminate].
    unfold getProperty in E.
    destruct (ownProperty DEFAULT_LANGUAGE_IDS label) as [v|] eqn:Ev.
    - inversion E; subst.
      cbn [ownProperty DEFAULT_LANGUAGE_IDS] in Ev.
      repeat match type of Ev with
             | (if ?b then _ else _) = _ => destruct b
             end; inversion Ev; subst; discriminate.
    - destruct (existsb _ _); discriminate. }
  assert (He : execute toLowerCase env body w
               = Some ({| statusCode := 400;
                          json := Error (JS.lit "Unsupported language: " ++ label) |},
                       request GetLanguages 0 w)).
  { unfold execute, resolveLanguage.
    now rewrite Hc, Hl, Hsrc, Hlabel, Hu, Hfail. }
  split; [exact He|].
  intros env' records Hcat Hnone. rewrite He.
  unfold execute, resolveLanguage.
  now rewrite Hc, Hl, Hsrc, Hlabel, Hu, Hcat, Hnone.
Qed.

(** C9. A request to [/explain], [/improve] or [/execute] whose body lacks
    [code] or [language] is answered with status 400, and the world is left
    as it was: no outbound request is made. *)
Theorem missing_field_is_rejected env body w :
  present (code body) = false \/ present (language body) = false ->
  let bad := {| statusCode := 400;
                json := Error (JS.lit "Code and language required") |} in
  explain env body w = (bad, w)
  /\ improve env body w = (bad, w)
  /\ execute toLowerCase env body w = Some (bad, w).
Proof.
  intros H bad. unfold explain, improve, execute, present in *.
  destruct (code body) as [src|], (language body) as [label|];
    try (repeat split; reflexivity).
  destruct H as [H|H]; rewrite H; cbn [negb orb];
    rewrite ?orb_true_r; repeat split; reflexivity.
Qed.

Lemma idAbsent_status r : idAbsent r -> statusIdOf (Some r) = 0%Z.
Proof.
  unfold statusIdOf, idAbsent.
  destruct (status r) as [s|]; [now intros -> | reflexivity].
Qed.

(** C10. A poll answer whose [status.id] is absent or [null] counts as
    status 0 and does not end the polling: after it comes another status
    request, unless the 20,000 ms have elapsed, and then this snapshot is
    returned in a success response, whose status reads ["Unknown"] when the
    [status] object is absent. When every answer received is of this kind,
    polling goes on until the timeout and ends this way. *)
Theorem absent_status_id_polls_until_timeout env body w tok w2 :
  reachesPolling toLowerCase env body w tok w2 ->
  exists resp w' n,
    execute toLowerCase env body w = Some (resp, w')
    /\ calls w' = calls w2 ++ repeat (GetSubmission tok) n
    /\ (forall j r,
          (j < n)%nat -> poll env j = Answer (Some r) -> idAbsent r ->
          statusIdOf (Some r) = 0%Z
          /\ ((S j < n)%nat
              \/ (S j = n /\ timeoutMs <= now w' - now w2
                  /\ resp = {| statusCode := 200;
                               json := Executed (displayOutput r)
                                         (statusDescOf r) tok r |}
                  /\ (status r = None -> statusDescOf r = JS.lit "Unknown"))))
    /\ ((forall j, (j < n)%nat ->
           exists r, poll env j = Answer (Some r) /\ idAbsent r) ->
        exists m r,
          n = S m /\ poll env m = Answer (Some r)
          /\ timeoutMs <= now w' - now w2
          /\ resp = {| statusCode := 200;
                       json := Executed (displayOutput r) (statusDescOf r) tok r |}).
Proof.
  intros Hreach.
  destruct (pollAndRespond_run env tok w2) as (m & exit & w' & Hr & Hrun).
  pose proof (PollRun_last _ _ _ _ _ _ _ _ _ Hrun) as Hl.
  cbn beta iota in Hl. cbn [Nat.add] in Hl.
  assert (Hlast : forall r, poll env m = Answer (Some r) -> idAbsent r ->
            timeoutMs <= now w' - now w2
            /\ respond tok exit
               = {| statusCode := 200;
                    json := Executed (displayOutput r) (statusDescOf r) tok r |}).
  { intros r Hp Ha. apply idAbsent_status in Ha.
    destruct exit as [d|details]; [|congruence].
    destruct Hl as [Hd Ht]. rewrite Hp in Hd. inversion Hd; subst d.
    split; [|reflexivity].
    destruct Ht as [Ht|[_ Ht]]; [lia | exact Ht]. }
  exists (respond tok exit), w', (S m).
  split; [now rewrite (execute_polling _ _ _ _ _ _ Hreach)|].
  split; [now apply PollRun_calls in Hrun|].
  split.
  - intros j r Hj Hp Ha. split; [now apply idAbsent_status|].
    destruct (Nat.eq_dec j m) as [->|Hne]; [right | left; lia].
    destruct (Hlast r Hp Ha) as [Ht Hresp].
    repeat split; try assumption.
    intros Hs. unfold statusDescOf. now rewrite Hs.
  - intros Hall. destruct (Hall m) as (r & Hp & Ha); [lia|].
    destruct (Hlast r Hp Ha) as [Ht Hresp].
    exists m, r. repeat split; assumption.
Qed.

End Claims.

(* ================================================================== *)
(** ** The properties at sample inputs *)
(* ================================================================== *)

(** C2, the claim as stated fails: the single octet [0xFF] is encoded as
    ["/w=="], which the decoder takes for plain text and returns as it is;
    and so it is for longer buffers that are not UTF-8, such as thirty
    such octets. *)
Lemma safeDecode_base64_invalid_utf8 :
  safeDecode (Some (Buffer.toBase64 [255])) = JS.lit "/w=="
  /\ Buffer.fromUtf8 (safeDecode (Some (Buffer.toBase64 [255]))) <> [255]
  /\ safeDecode (Some (Buffer.toBase64 (repeat 255 30)))
     = Buffer.toBase64 (repeat 255 30)
  /\ Buffer.fromUtf8 (safeDecode (Some (Buffer.toBase64 (repeat 255 30))))
     <> repeat 255 30.
Proof.
  split; [reflexivity|]. split; [vm_compute; discriminate|].
  split; [reflexivity | vm_compute; discriminate].
Qed.

Lemma safeDecode_plain_text_witness :
  In 44 (JS.lit "Hello, world!") /\ base64OrSpace 44 = false
  /\ safeDecode (Some (JS.lit "Hello, world!")) = JS.lit "Hello, world!".
Proof.
  assert (Hin : In 44 (JS.lit "Hello, world!")).
  { do 5 right. left. reflexivity. }
  split; [exact Hin|]. split; [reflexivity|].
  exact (safeDecode_plain_text _ 44 Hin eq_refl).
Defined.

Lemma printOne_reaches_polling env :
  submission env (JS.lit "print(1)") (Num 71)
  = Answer (Some {| token := Some jobToken |}) ->
  reachesPolling asciiLower env printOne startWorld jobToken
    (request (PostSubmission (JS.lit "print(1)") (Num 71)) 0 startWorld).
Proof.
  intros Hsub.
  exists (JS.lit "print(1)"), (JS.lit "python"), (Num 71), startWorld.
  split; [reflexivity|]. split; [reflexivity|].
  split; [reflexivity|]. split; [reflexivity|].
  split; [reflexivity|]. split; [reflexivity|].
  split; [exact Hsub|]. split; reflexivity.
Defined.

Lemma polling_stops_at_terminal_status_witness :
  exists w',
    execute asciiLower twoPollEnv printOne startWorld
    = Some ({| statusCode := 200;
               json := Executed (JS.lit "1") (JS.lit "Accepted") jobToken
                         (snapshot (Some 3%Z) (Some (JS.lit "Accepted"))
                                   (Some (JS.lit "1"))) |}, w')
    /\ countCalls isStatusRequest (calls w') = 2%nat
    /\ countCalls isSubmission (calls w') = 1%nat.
Proof.
  destruct (polling_stops_at_terminal_status asciiLower twoPollEnv printOne
              startWorld jobToken _ (printOne_reaches_polling twoPollEnv eq_refl))
    as (resp & w' & n & He & _ & Hst & Hsub & _ & _ & Hsecond).
  destruct (Hsecond _ _ eq_refl ltac:(cbn; lia) eq_refl ltac:(cbn; lia) eq_refl)
    as [-> ->].
  exists w'. repeat split; assumption.
Defined.

(** C5, the claim as stated fails: the job is never terminal and the first
    poll did bring a snapshot, yet the request ends with the 500 error
    ["No result received from Judge0"], because the second and last poll
    brought an empty body. *)
Lemma no_result_despite_snapshot :
  (forall k, exists d,
      poll lostSnapshotEnv k = Answer d /\ (statusIdOf d <= 2)%Z)
  /\ poll lostSnapshotEnv 0
     = Answer (Some (snapshot (Some 1%Z) (Some (JS.lit "In Queue")) None))
  /\ execute asciiLower lostSnapshotEnv printOne startWorld
     = Some ({| statusCode := 500;
                json := Error (JS.lit "No result received from Judge0") |},
             {| now := 1700000021600;
                calls := [PostSubmission (JS.lit "print(1)") (Num 71);
                          GetSubmission jobToken; GetSubmission jobToken] |}).
Proof.
  split; [|split; reflexivity].
  intros [|k]; eexists; (split; [reflexivity | cbn; lia]).
Qed.

Lemma timeout_answers_from_last_poll_witness :
  exists w',
    execute asciiLower stuckEnv printOne startWorld
    = Some ({| statusCode := 200;
               json := Executed (JS.lit "No output") (JS.lit "Processing") jobToken
                         (snapshot (Some 2%Z) (Some (JS.lit "Processing")) None) |},
            w')
    /\ timeoutMs <= now w' - now startWorld.
Proof.
  destruct (timeout_answers_from_last_poll asciiLower stuckEnv printOne
              startWorld jobToken _ (printOne_reaches_polling stuckEnv eq_refl))
    as (resp & w' & n & He & _ & Hall).
  destruct Hall as (m & d & _ & Hp & Ht & ->).
  { intros j _. eexists. split; [reflexivity | cbn; lia]. }
  cbn [poll stuckEnv] in Hp. inversion Hp; subst d.
  exists w'. split; assumption.
Defined.

Lemma static_table_resolves_locally_witness :
  In (JS.lit "python", 71%Z) DEFAULT_LANGUAGE_IDS
  /\ resolveLanguage asciiLower offlineCatalogEnv (JS.lit "python") startWorld
     = (Num 71, startWorld).
Proof.
  assert (Hin : In (JS.lit "python", 71%Z) DEFAULT_LANGUAGE_IDS)
    by (left; reflexivity).
  split; [exact Hin|].
  exact (proj1 (static_table_resolves_locally asciiLower offlineCatalogEnv _ _
                  startWorld Hin)).
Defined.

Lemma catalog_failure_reads_as_no_match_witness :
  execute asciiLower offlineCatalogEnv cobolRequest startWorld
  = Some ({| statusCode := 400;
             json := Error (JS.lit "Unsupported language: cobol") |},
          request GetLanguages 0 startWorld).
Proof.
  exact (proj1 (catalog_failure_reads_as_no_match asciiLower offlineCatalogEnv
                  cobolRequest (JS.lit "DISPLAY 1.") (JS.lit "cobol")
                  (JS.lit "Network Error") startWorld
                  eq_refl eq_refl eq_refl eq_refl eq_refl eq_refl)).
Defined.

Lemma missing_field_is_rejected_witness :
  present (code noCodeRequest) = false
  /\ execute asciiLower twoPollEnv noCodeRequest startWorld
     = Some ({| statusCode := 400;
                json := Error (JS.lit "Code and language required") |},
             startWorld).
Proof.
  split; [reflexivity|].
  exact (proj2 (proj2 (missing_field_is_rejected asciiLower twoPollEnv
                         noCodeRequest startWorld (or_introl eq_refl)))).
Defined.

Lemma absent_status_id_polls_until_timeout_witness :
  exists w',
    execute asciiLower noStatusEnv printOne startWorld
    = Some ({| statusCode := 200;
               json := Executed (JS.lit "partial") (JS.lit "Unknown") jobToken
                         {| status := None; compile_output := None;
                            stderr := None;
                            stdout := Some (JS.lit "partial") |} |}, w')
    /\ timeoutMs <= now w' - now startWorld.
Proof.
  destruct (absent_status_id_polls_until_timeout asciiLower noStatusEnv printOne
              startWorld jobToken _ (printOne_reaches_polling noStatusEnv eq_refl))
    as (resp & w' & n & He & _ & _ & Hall).
  destruct Hall as (m & r & _ & Hp & Ht & ->).
  { intros j _. eexists. split; [reflexivity | exact I]. }
  cbn [poll noStatusEnv] in Hp. inversion Hp; subst r.
  exists w'. split; assumption.
Defined.

(* ================================================================== *)
(** ** Trimming, padding and decoding: further lemmas *)
(* ================================================================== *)

Module TrimFacts.
Import JS JSFacts.

Lemma dropWhile_split p s :
  exists l, s = l ++ dropWhile p s /\ Forall (fun c => p c = true) l.
Proof.
  induction s as [|c s (l & Hs & Hl)]; [now exists []|].
  cbn [dropWhile]. destruct (p c) eqn:Hc.
  - exists (c :: l). split; [cbn; now f_equal | now constructor].
  - now exists [].
Qed.

Lemma dropWhile_head p s c s' : dropWhile p s = c :: s' -> p c = false.
Proof.
  induction s as [|a s IH]; [discriminate|]. cbn [dropWhile].
  destruct (p a) eqn:Ha; [exact IH|]. intros H. now inversion H; subst.
Qed.

Lemma dropWhile_app_all p l s :
  Forall (fun c => p c = true) l -> dropWhile p (l ++ s) = dropWhile p s.
Proof.
  induction 1 as [|c l Hc _ IH]; [reflexivity|]. cbn. now rewrite Hc.
Qed.

Lemma dropWhile_idem p s : dropWhile p (dropWhile p s) = dropWhile p s.
Proof.
  destruct (dropWhile p s) as [|c s'] eqn:E; [reflexivity|].
  apply dropWhile_head in E. cbn. now rewrite E.
Qed.

Lemma dropWhileEnd_split p s :
  exists r, s = dropWhileEnd p s ++ r /\ Forall (fun c => p c = true) r.
Proof.
  unfold dropWhileEnd.
  destruct (dropWhile_split p (rev s)) as (l & Hs & Hl).
  exists (rev l). split; [|now apply Forall_rev].
  rewrite <- rev_app_distr, <- Hs. now rewrite rev_involutive.
Qed.

Lemma dropWhileEnd_app_all p s r :
  Forall (fun c => p c = true) r -> dropWhileEnd p (s ++ r) = dropWhileEnd p s.
Proof.
  intros Hr. unfold dropWhileEnd. rewrite rev_app_distr.
  rewrite dropWhile_app_all by now apply Forall_rev. reflexivity.
Qed.

Lemma dropWhileEnd_idem p s : dropWhileEnd p (dropWhileEnd p s) = dropWhileEnd p s.
Proof.
  unfold dropWhileEnd. now rewrite rev_involutive, dropWhile_idem.
Qed.

(** A string is its trimmed part between two runs of white space. *)
Lemma trim_split s :
  exists l r, s = l ++ trim s ++ r
    /\ Forall (fun c => isWhiteSpace c = true) l
    /\ Forall (fun c => isWhiteSpace c = true) r.
Proof.
  unfold trim.
  destruct (dropWhile_split isWhiteSpace s) as (l & Hs & Hl).
  destruct (dropWhileEnd_split isWhiteSpace (dropWhile isWhiteSpace s))
    as (r & Hd & Hr).
  exists l, r. split; [|now split]. now rewrite <- Hd.
Qed.

Lemma trim_head s c s' : trim s = c :: s' -> isWhiteSpace c = false.
Proof.
  unfold trim. intros H.
  destruct (dropWhileEnd_split isWhiteSpace (dropWhile isWhiteSpace s))
    as (r & Hd & _).
  rewrite H in Hd. cbn in Hd. now apply dropWhile_head in Hd.
Qed.

Lemma trim_idem s : trim (trim s) = trim s.
Proof.
  unfold trim at 1.
  assert (H : dropWhile isWhiteSpace (trim s) = trim s).
  { destruct (trim s) as [|c s'] eqn:E; [reflexivity|].
    apply trim_head in E. cbn. now rewrite E. }
  rewrite H. unfold trim. apply dropWhileEnd_idem.
Qed.

End TrimFacts.

Module Base64Facts.
Import JS Buffer JSFacts BufferFacts TrimFacts.

Lemma pad_run r :
  Forall (fun c => (c =? 61) = true) r -> r = repeat 61 (List.length r).
Proof.
  induction 1 as [|c r Hc _ IH]; [reflexivity|].
  apply N.eqb_eq in Hc. subst. cbn. now f_equal.
Qed.

Lemma repeat_pad k : Forall (fun c => (c =? 61) = true) (repeat 61 k).
Proof. induction k; cbn; constructor; auto. Qed.

(** A string is its unpadded part followed by a run of ['=']. *)
Lemma stripPadding_split s :
  exists k, s = stripPadding s ++ repeat 61 k.
Proof.
  destruct (dropWhileEnd_split (fun c => c =? 61) s) as (r & Hs & Hr).
  exists (List.length r). now rewrite <- (pad_run r Hr).
Qed.

Lemma stripPadding_app_pad s k : stripPadding (s ++ repeat 61 k) = stripPadding s.
Proof. apply dropWhileEnd_app_all, repeat_pad. Qed.

Lemma stripPadding_idem s : stripPadding (stripPadding s) = stripPadding s.
Proof. apply dropWhileEnd_idem. Qed.

(** Decoding stops at the first ['=']. *)
Lemma sextets_stop y z : sextets (y ++ 61 :: z) = sextets y.
Proof.
  induction y as [|c y IH]; [reflexivity|]. cbn [app sextets].
  destruct (lowByte c =? 61); [reflexivity|]. now rewrite IH.
Qed.

Lemma sextets_app_pad y k : sextets (y ++ repeat 61 k) = sextets y.
Proof.
  destruct k as [|k]; [now rewrite app_nil_r|]. cbn [repeat]. apply sextets_stop.
Qed.

Lemma fromBase64_stripPadding s : fromBase64 (stripPadding s) = fromBase64 s.
Proof.
  unfold fromBase64. destruct (stripPadding_split s) as [k Hk].
  rewrite Hk at 2. now rewrite sextets_app_pad.
Qed.

Lemma sextets_skip_left l s : Forall skipped l -> sextets (l ++ s) = sextets s.
Proof.
  induction 1 as [|c l [Hc Hu] _ IH]; [reflexivity|].
  cbn [app sextets]. now rewrite Hc, Hu.
Qed.

Lemma sextets_skip_right s r : Forall skipped r -> sextets (s ++ r) = sextets s.
Proof.
  intros Hr. induction s as [|c s IH]; cbn [app sextets].
  - rewrite <- (app_nil_r r). now rewrite sextets_skip_left.
  - now rewrite IH.
Qed.

(** White space below 256 is neither decoded nor a stop. Of the white space
    above, U+202F and U+205F are decoded, as ['/'] and ['_']. *)
Lemma whitespace_skipped c : c < 256 -> isWhiteSpace c = true -> skipped c.
Proof.
  intros Hlow. unfold skipped, unbase64. rewrite (lowByte_small c Hlow).
  unfold isWhiteSpace, isUpper, isLower, isDigit. cbv zeta.
  intros H.
  assert (Hc : 9 <= c <= 13 \/ c = 0x20 \/ c >= 0xA0).
  { repeat (apply orb_true_iff in H; destruct H as [H|H]);
      try (apply N.eqb_eq in H; lia);
      apply andb_true_iff in H; destruct H as [H1 H2];
      apply N.leb_le in H1, H2; lia. }
  split; [apply N.eqb_neq; lia|].
  destruct Hc as [Hc|[Hc|Hc]]; decide_cmp; reflexivity.
Qed.

(** The decoder reads a string of code units below 256 as it reads its
    trimmed part. *)
Lemma fromBase64_trim s :
  Forall (fun c => c < 256) s -> fromBase64 (trim s) = fromBase64 s.
Proof.
  intros Hlow.
  unfold fromBase64. destruct (trim_split s) as (l & r & Hs & Hl & Hr).
  assert (Hsk : forall x, Forall (fun c => c < 256) x ->
                          Forall (fun c => isWhiteSpace c = true) x ->
                          Forall skipped x).
  { intros x Hx Hw. rewrite Forall_forall in *. intros c Hc.
    apply whitespace_skipped; auto. }
  rewrite Hs in Hlow.
  apply Forall_app in Hlow. destruct Hlow as [Hll Hlow].
  apply Forall_app in Hlow. destruct Hlow as [_ Hlr].
  rewrite Hs at 2.
  now rewrite (sextets_skip_left _ _ (Hsk l Hll Hl)),
              (sextets_skip_right _ _ (Hsk r Hlr Hr)).
Qed.

(** Every character the encoder writes is of the alphabet or ['=']. *)
Lemma b64char_alphabet v : isBase64Alphabet (b64char v) = true.
Proof.
  unfold isBase64Alphabet, b64char, isUpper, isLower, isDigit.
  destruct (N.ltb_spec v 26); [decide_cmp; reflexivity|].
  destruct (N.ltb_spec v 52); [decide_cmp; reflexivity|].
  destruct (N.ltb_spec v 62); [decide_cmp; reflexivity|].
  destruct (N.eqb_spec v 62); reflexivity.
Qed.

Lemma toBase64_chars b :
  Forall (fun c => isBase64Alphabet c = true \/ c = 61) (toBase64 b).
Proof.
  induction b as [|x|x y|x y z rest IH] using triples_ind; cbn [toBase64];
    repeat (constructor; [first [left; apply b64char_alphabet | now right]|]);
    first [constructor | exact IH].
Qed.

Lemma alphabet_not_pad c : isBase64Alphabet c = true -> (c =? 61) = false.
Proof.
  unfold isBase64Alphabet, isUpper, isLower, isDigit. intros H.
  destruct (N.eqb_spec c 61) as [->|]; [discriminate|reflexivity].
Qed.

Lemma alphabet_low c : isBase64Alphabet c = true -> c < 256.
Proof.
  unfold isBase64Alphabet, isUpper, isLower, isDigit. intros H.
  repeat (apply orb_true_iff in H; destruct H as [H|H]);
    try (apply N.eqb_eq in H; lia);
    apply andb_true_iff in H; destruct H as [H1 H2];
    apply N.leb_le in H1, H2; lia.
Qed.

(** The encoder writes code units below 256 only. *)
Lemma toBase64_low b : Forall (fun c => c < 256) (toBase64 b).
Proof.
  eapply Forall_impl; [|exact (toBase64_chars b)].
  intros c [Hc| ->]; [now apply alphabet_low | reflexivity].
Qed.

(** Above 255 the low byte decides: four narrow no-break spaces (U+202F),
    which [trim] strips, are decoded as four ['/']. *)
Example fromBase64_narrow_space :
  trim [0x202F; 0x202F; 0x202F; 0x202F] = []
  /\ fromBase64 [0x202F; 0x202F; 0x202F; 0x202F] = [255; 255; 255].
Proof. split; reflexivity. Qed.

(** What the encoder writes is a run of alphabet characters and then at
    most two ['=']. *)
Lemma toBase64_shape b :
  exists core k,
    toBase64 b = core ++ repeat 61 k
    /\ Forall (fun c => isBase64Alphabet c = true) core.
Proof.
  induction b as [|x|x y|x y z rest (core & k & Hb & Hcore)] using triples_ind;
    cbn [toBase64].
  - now exists [], 0%nat.
  - exists [b64char (x / 4); b64char (x mod 4 * 16)], 2%nat.
    split; [reflexivity|]. repeat constructor; apply b64char_alphabet.
  - exists [b64char (x / 4); b64char (x mod 4 * 16 + y / 16);
            b64char (y mod 16 * 4)], 1%nat.
    split; [reflexivity|]. repeat constructor; apply b64char_alphabet.
  - exists (b64char (x / 4) :: b64char (x mod 4 * 16 + y / 16)
            :: b64char (y mod 16 * 4 + z / 64) :: b64char (z mod 64) :: core), k.
    split; [cbn; now rewrite Hb|].
    repeat (constructor; [apply b64char_alphabet|]). exact Hcore.
Qed.

Lemma stripPadding_alphabet core :
  Forall (fun c => isBase64Alphabet c = true) core -> stripPadding core = core.
Proof.
  intros H. apply dropWhileEnd_keeps.
  eapply Forall_impl; [|exact H]. intros c. apply alphabet_not_pad.
Qed.

(** Without its padding, what the encoder writes is of the alphabet. *)
Lemma unpadded_alphabet b :
  Forall (fun c => isBase64Alphabet c = true) (stripPadding (toBase64 b)).
Proof.
  destruct (toBase64_shape b) as (core & k & Hb & Hcore).
  now rewrite Hb, stripPadding_app_pad, stripPadding_alphabet.
Qed.

Lemma fromBase64_unpadded b :
  octets b -> fromBase64 (stripPadding (toBase64 b)) = b.
Proof.
  intros Hb. now rewrite fromBase64_stripPadding, fromBase64_toBase64.
Qed.

End Base64Facts.

Module Utf8Facts.
Import JS Buffer JSFacts BufferFacts.

Lemma scalar_replacement : scalar replacement.
Proof. unfold scalar, replacement. lia. Qed.

(** A lead octet opens a sequence that can only end in a scalar value. *)
Lemma utf8Lead_ok b out st :
  utf8Lead b = (out, st) -> Forall scalar out /\ stateOk st.
Proof.
  unfold utf8Lead.
  destruct (N.leb_spec b 0x7F) as [H1|H1].
  { intros H; inversion H; subst. split; [|exact I].
    constructor; [unfold scalar; lia | constructor]. }
  destruct ((0xC2 <=? b) && (b <=? 0xDF)) eqn:H2.
  { apply andb_true_iff in H2. destruct H2 as [Ha Hb].
    apply N.leb_le in Ha, Hb.
    intros H; inversion H; subst. split; [constructor|].
    cbn. intros x Hx. unfold scalar. lia. }
  destruct ((0xE0 <=? b) && (b <=? 0xEF)) eqn:H3.
  { apply andb_true_iff in H3. destruct H3 as [Ha Hb].
    apply N.leb_le in Ha, Hb.
    intros H; inversion H; subst. split; [constructor|].
    cbn. intros x Hx y Hy. unfold scalar.
    destruct (N.eqb_spec b 0xE0), (N.eqb_spec b 0xED); lia. }
  destruct ((0xF0 <=? b) && (b <=? 0xF4)) eqn:H4.
  { apply andb_true_iff in H4. destruct H4 as [Ha Hb].
    apply N.leb_le in Ha, Hb.
    intros H; inversion H; subst. split; [constructor|].
    cbn. intros x Hx y Hy z Hz. unfold scalar.
    destruct (N.eqb_spec b 0xF0), (N.eqb_spec b 0xF4); lia. }
  intros H; inversion H; subst. split; [|exact I].
  constructor; [exact scalar_replacement | constructor].
Qed.

Lemma completes_last need cp lo hi x :
  (need <= 1)%nat -> completes need cp lo hi -> lo <= x <= hi ->
  scalar (cp * 64 + x mod 64).
Proof.
  intros Hn H Hx. destruct need as [|[|n]]; [exact (H x Hx)..|lia].
Qed.

Lemma completes_next n cp lo hi x :
  completes (S (S n)) cp lo hi -> lo <= x <= hi ->
  completes (S n) (cp * 64 + x mod 64) 0x80 0xBF.
Proof. intros H Hx. exact (H x Hx). Qed.

Lemma utf8Step_ok st b out st' :
  stateOk st -> utf8Step st b = (out, st') -> Forall scalar out /\ stateOk st'.
Proof.
  destruct st as [|cp need lo hi]; cbn [utf8Step stateOk].
  { intros _. apply utf8Lead_ok. }
  intros Hok.
  destruct ((lo <=? b) && (b <=? hi)) eqn:Hr.
  - apply andb_true_iff in Hr. destruct Hr as [Ha Hb].
    apply N.leb_le in Ha, Hb.
    destruct need as [|[|n]]; intros H; inversion H; subst.
    + split; [|exact I].
      constructor; [|constructor].
      apply (completes_last 0 cp lo hi); [lia | exact Hok | lia].
    + split; [|exact I].
      constructor; [|constructor].
      apply (completes_last 1 cp lo hi); [lia | exact Hok | lia].
    + split; [constructor|]. cbn [stateOk].
      apply (completes_next n cp lo hi); [exact Hok | lia].
  - destruct (utf8Lead b) as [out0 st0] eqn:Hl.
    apply utf8Lead_ok in Hl. destruct Hl as [Ho Hs].
    intros H; inversion H; subst. split; [|exact Hs].
    constructor; [exact scalar_replacement | exact Ho].
Qed.

Lemma utf8Run_scalar b : forall st, stateOk st -> Forall scalar (utf8Run st b).
Proof.
  induction b as [|x b IH]; intros st Hst; cbn [utf8Run].
  - destruct st; [constructor|].
    constructor; [exact scalar_replacement | constructor].
  - destruct (utf8Step st x) as [out st'] eqn:Hs.
    destruct (utf8Step_ok _ _ _ _ Hst Hs) as [Ho Hst'].
    apply Forall_app. split; [exact Ho | now apply IH].
Qed.

Lemma wellFormed_units cp rest :
  scalar cp -> wellFormed (utf16Units cp ++ rest) = wellFormed rest.
Proof.
  intros [Hmax Hsur]. unfold utf16Units.
  destruct (N.ltb_spec cp 0x10000) as [H|H]; cbn [app].
  - rewrite wellFormed_cons. unfold isHighSurrogate, isLowSurrogate.
    assert (Hc : cp < 0xD800 \/ 0xDFFF < cp) by lia.
    destruct Hc; decide_cmp; reflexivity.
  - rewrite wellFormed_cons. unfold isHighSurrogate, isLowSurrogate.
    decide_cmp. reflexivity.
Qed.

(** Decoding never yields a lone surrogate or a unit beyond 16 bits. *)
Lemma toStringUtf8_wellFormed b : wellFormed (toStringUtf8 b) = true.
Proof.
  unfold toStringUtf8.
  pose proof (utf8Run_scalar b Idle I) as H.
  induction H as [|cp l Hcp _ IH]; [reflexivity|].
  cbn [flat_map]. now rewrite wellFormed_units.
Qed.

End Utf8Facts.

(* ================================================================== *)
(** ** The output decoder: what it accepts and what it returns *)
(* ================================================================== *)

Module DecoderTheory.
Import JS Buffer JSFacts BufferFacts TrimFacts Base64Facts Utf8Facts.

Lemma forallb_app_true {A} (p : A -> bool) l1 l2 :
  forallb p l1 = true -> forallb p l2 = true -> forallb p (l1 ++ l2) = true.
Proof. intros H1 H2. now rewrite forallb_app, H1, H2. Qed.

Lemma alphabet_class c : isBase64Alphabet c = true -> inBase64Class c = true.
Proof.
  unfold isBase64Alphabet, inBase64Class. intros H.
  destruct (isUpper c), (isLower c), (isDigit c), (c =? 43), (c =? 47);
    try reflexivity; discriminate.
Qed.

(** What the round-trip test accepts. *)
Lemma accepted_form (s : JS.str) :
  isLikelyBase64 s = true
  <-> JS.trim s <> []
      /\ exists t k,
           JS.wellFormed t = true
           /\ JS.trim s
              = JS.stripPadding (Buffer.toBase64 (Buffer.fromUtf8 t))
                ++ repeat 61 k.
Proof.
  unfold isLikelyBase64. split.
  - destruct (testBase64Chars (trim s)) eqn:Ht; [|discriminate]. cbn [negb].
    destruct (list_eq_dec N.eq_dec _ _) as [E|]; [|discriminate]. intros _.
    unfold testBase64Chars in Ht. apply andb_true_iff in Ht.
    destruct Ht as [Hne _]. split; [now apply truthy_true|].
    exists (toStringUtf8 (fromBase64 (trim s))).
    destruct (stripPadding_split (trim s)) as [k Hk]. exists k.
    split; [apply toStringUtf8_wellFormed|]. now rewrite E.
  - intros (Hne & t & k & Hwf & Hs).
    destruct (utf8_roundtrip t Hwf) as [Hr Ho].
    assert (Hd : fromBase64 (trim s) = fromUtf8 t).
    { rewrite Hs. unfold fromBase64. rewrite sextets_app_pad.
      now apply fromBase64_unpadded. }
    assert (Hc : testBase64Chars (trim s) = true).
    { unfold testBase64Chars. apply andb_true_iff.
      split; [now apply truthy_true|]. rewrite Hs.
      apply forallb_app_true; apply forallb_forall; intros c Hc.
      - apply alphabet_class.
        pose proof (unpadded_alphabet (fromUtf8 t)) as Ha.
        rewrite Forall_forall in Ha. now apply Ha.
      - apply repeat_spec in Hc. now subst. }
    rewrite Hc, Hd, Hr. cbn [negb].
    rewrite Hs, stripPadding_app_pad, stripPadding_idem.
    now destruct (list_eq_dec N.eq_dec _ _).
Qed.

(** What the decoder returns for what the test accepts. *)
Lemma decode_accepted_form (s t : JS.str) (k : nat) :
  Forall (fun c => c < 256) s ->
  JS.wellFormed t = true ->
  JS.trim s
  = JS.stripPadding (Buffer.toBase64 (Buffer.fromUtf8 t)) ++ repeat 61 k ->
  JS.trim s <> [] ->
  safeDecode (Some s) = t.
Proof.
  intros Hlow Hwf Hs Hne. unfold safeDecode.
  assert (Ha : isLikelyBase64 s = true).
  { apply accepted_form. split; [exact Hne|]. now exists t, k. }
  rewrite Ha, <- (fromBase64_trim s Hlow), Hs.
  destruct (utf8_roundtrip t Hwf) as [Hr Ho].
  unfold fromBase64. rewrite sextets_app_pad.
  change (groupOctets (sextets ?x)) with (fromBase64 x).
  now rewrite fromBase64_unpadded, Hr.
Qed.

(** X1. [isLikelyBase64] accepts a string exactly when its trimmed text is
    not empty and is the unpadded base64 of the UTF-8 octets of some
    well-formed text, followed by any number of ['=']. *)
Theorem isLikelyBase64_accepts (s : JS.str) :
  isLikelyBase64 s = true
  <-> JS.trim s <> []
      /\ exists t k,
           JS.wellFormed t = true
           /\ JS.trim s
              = JS.stripPadding (Buffer.toBase64 (Buffer.fromUtf8 t))
                ++ repeat 61 k.
Proof. exact (accepted_form s). Qed.

(** X2. For a string of code units below 256 whose trimmed text is the
    base64 of the UTF-8 octets of a well-formed text [t], with the padding
    complete, short or overlong, and is not empty, [safeDecode] returns
    [t]. *)
Theorem safeDecode_base64_forms (s t : JS.str) (k : nat) :
  Forall (fun c => c < 256) s ->
  JS.wellFormed t = true ->
  JS.trim s
  = JS.stripPadding (Buffer.toBase64 (Buffer.fromUtf8 t)) ++ repeat 61 k ->
  JS.trim s <> [] ->
  safeDecode (Some s) = t.
Proof. exact (decode_accepted_form s t k). Qed.

(** X3. When [safeDecode] decodes a string of code units below 256, no
    octet is lost or replaced: the text it returns is well formed and its
    UTF-8 octets are the octets the base64 text stands for. *)
Theorem safeDecode_lossless (s : JS.str) :
  Forall (fun c => c < 256) s ->
  isLikelyBase64 s = true ->
  JS.wellFormed (safeDecode (Some s)) = true
  /\ Buffer.fromUtf8 (safeDecode (Some s)) = Buffer.fromBase64 s.
Proof.
  intros Hs Ha. pose proof Ha as Hb.
  apply accepted_form in Hb.
  destruct Hb as (Hne & t & k & Hwf & Ht).
  rewrite (decode_accepted_form s t k Hs Hwf Ht Hne).
  split; [exact Hwf|].
  rewrite <- (fromBase64_trim s Hs), Ht. unfold fromBase64.
  rewrite sextets_app_pad.
  change (groupOctets (sextets ?x)) with (fromBase64 x).
  destruct (utf8_roundtrip t Hwf) as [_ Ho].
  now rewrite fromBase64_unpadded.
Qed.

(** X4. Base64 text with a line break inside is not decoded: a string
    whose trimmed text contains a carriage return or a line feed is
    returned as it is, although the character class of line 49 admits
    both. *)
Theorem safeDecode_line_wrapped (s : JS.str) (c : N) :
  In c (JS.trim s) -> c = 10 \/ c = 13 ->
  isLikelyBase64 s = false /\ safeDecode (Some s) = s.
Proof.
  intros Hin Hc.
  assert (Hn : isLikelyBase64 s = false).
  { destruct (isLikelyBase64 s) eqn:Ha; [exfalso|reflexivity].
    apply accepted_form in Ha.
    destruct Ha as (_ & t & k & _ & Ht). rewrite Ht in Hin.
    apply in_app_or in Hin. destruct Hin as [Hin|Hin].
    - pose proof (unpadded_alphabet (fromUtf8 t)) as Hal.
      rewrite Forall_forall in Hal. specialize (Hal c Hin).
      destruct Hc; subst; discriminate.
    - apply repeat_spec in Hin. destruct Hc; subst; discriminate. }
  split; [exact Hn|]. unfold safeDecode. now rewrite Hn.
Qed.

(** X5. A string of code units below 256 whose trimmed text consists of
    ['='] characters only is decoded to the empty string; a job whose only
    output is such a line is reported with ["No output"]. *)
Theorem safeDecode_only_padding (s : JS.str) (k : nat) :
  Forall (fun c => c < 256) s ->
  JS.trim s = repeat 61 (S k) ->
  safeDecode (Some s) = []
  /\ forall st,
       displayOutput {| status := st; compile_output := None;
                        stderr := None; stdout := Some s |}
       = JS.lit "No output".
Proof.
  intros Hs Ht.
  assert (H : safeDecode (Some s) = []).
  { apply (decode_accepted_form s [] (S k) Hs eq_refl).
    - exact Ht.
    - rewrite Ht. discriminate. }
  split; [exact H|].
  intros st. unfold displayOutput. cbn [compile_output stderr stdout].
  now rewrite H.
Qed.

End DecoderTheory.

(** Octets that are not UTF-8: decoding and encoding again changes them. *)
Lemma lossy_not_utf8 (b : Buffer.bytes) :
  Buffer.fromUtf8 (Buffer.toStringUtf8 b) <> b ->
  forall s, JS.wellFormed s = true -> b <> Buffer.fromUtf8 s.
Proof.
  intros H s Hwf ->. apply H.
  destruct (BufferFacts.utf8_roundtrip s Hwf) as [Hr _]. now rewrite Hr.
Qed.

(** The round-trip test accepts the base64 of UTF-8 octets only. *)
Lemma accepted_is_utf8 (b : Buffer.bytes) :
  Buffer.octets b ->
  isLikelyBase64 (Buffer.toBase64 b) = true ->
  exists s, JS.wellFormed s = true /\ b = Buffer.fromUtf8 s.
Proof.
  intros Hb Ha. apply DecoderTheory.accepted_form in Ha.
  destruct Ha as (_ & t & k & Hwf & Ht).
  exists t. split; [exact Hwf|].
  destruct (BufferFacts.utf8_roundtrip t Hwf) as [_ Ho].
  rewrite <- (BufferFacts.fromBase64_toBase64 b Hb).
  rewrite <- (Base64Facts.fromBase64_trim _ (Base64Facts.toBase64_low b)), Ht.
  unfold Buffer.fromBase64. rewrite Base64Facts.sextets_app_pad.
  change (Buffer.groupOctets (Buffer.sextets ?x)) with (Buffer.fromBase64 x).
  now rewrite Base64Facts.fromBase64_unpadded.
Qed.

(** C2, as amended. For every byte sequence [b] that is the UTF-8 encoding
    of a well-formed text [s], the output decoder applied to the base64
    encoding of [b] yields [s], the text whose UTF-8 octets are [b]. For
    every sequence of octets [b] that is the UTF-8 encoding of no
    well-formed text, the round-trip test of [isLikelyBase64] fails on the
    base64 encoding of [b] and the decoder returns that base64 text
    itself. *)
Theorem safeDecode_base64_of_text (b : Buffer.bytes) :
  (forall s, JS.wellFormed s = true -> b = Buffer.fromUtf8 s ->
     safeDecode (Some (Buffer.toBase64 b)) = s
     /\ Buffer.fromUtf8 (safeDecode (Some (Buffer.toBase64 b))) = b)
  /\ (Buffer.octets b ->
      (forall s, JS.wellFormed s = true -> b <> Buffer.fromUtf8 s) ->
      isLikelyBase64 (Buffer.toBase64 b) = false
      /\ safeDecode (Some (Buffer.toBase64 b)) = Buffer.toBase64 b).
Proof.
  split.
  - intros s Hwf ->. rewrite DecoderFacts.safeDecode_encoded by assumption.
    split; reflexivity.
  - intros Hb Hn.
    assert (Ha : isLikelyBase64 (Buffer.toBase64 b) = false).
    { destruct (isLikelyBase64 (Buffer.toBase64 b)) eqn:Ha; [exfalso|reflexivity].
      destruct (accepted_is_utf8 b Hb Ha) as (s & Hwf & Hs).
      exact (Hn s Hwf Hs). }
    split; [exact Ha|]. unfold safeDecode. now rewrite Ha.
Qed.

(** At a text of four code units (h, e with an acute accent, and the
    surrogate pair of U+1F600), whose UTF-8 is seven octets, and at the
    single octet [0xFF], which is not UTF-8. *)
Lemma safeDecode_base64_of_text_witness :
  (JS.wellFormed [104; 233; 0xD83D; 0xDE00] = true
   /\ safeDecode (Some (Buffer.toBase64 [104; 195; 169; 240; 159; 152; 128]))
      = [104; 233; 0xD83D; 0xDE00])
  /\ (Buffer.octets [255]
      /\ (forall s, JS.wellFormed s = true -> [255] <> Buffer.fromUtf8 s)
      /\ isLikelyBase64 (Buffer.toBase64 [255]) = false
      /\ safeDecode (Some (Buffer.toBase64 [255])) = Buffer.toBase64 [255]).
Proof.
  assert (Ho : Buffer.octets [255]).
  { constructor; [reflexivity | constructor]. }
  assert (Hn : forall s, JS.wellFormed s = true -> [255] <> Buffer.fromUtf8 s).
  { apply lossy_not_utf8. vm_compute. discriminate. }
  split.
  - split; [reflexivity|].
    exact (proj1 (proj1 (safeDecode_base64_of_text
                           [104; 195; 169; 240; 159; 152; 128])
                        [104; 233; 0xD83D; 0xDE00] eq_refl eq_refl)).
  - split; [exact Ho|]. split; [exact Hn|].
    exact (proj2 (safeDecode_base64_of_text [255]) Ho Hn).
Defined.

Section PollBound.

Variable env : Env.
Variable tok : JS.str.
Variable startAt : N.

(** Each pass that reaches the timer costs [pollIntervalMs] of the
    [timeoutMs]. *)
Lemma PollRun_bound k rd w n exit w' :
  PollRun env tok startAt k rd w n exit w' ->
  startAt <= now w ->
  n = 0%nat
  \/ pollIntervalMs * N.of_nat (pred n) + (now w - startAt) < timeoutMs.
Proof.
  induction 1 as [k rd w _|k rd w d Ht _|k rd w data Ht _ _
                 |k rd w data n exit w' Ht _ _ _ IH]; intros Hs.
  - now left.
  - right. cbn. lia.
  - right. cbn. lia.
  - right. destruct IH as [->|IH].
    + cbn [sleep request now]. lia.
    + cbn. lia.
    + destruct n as [|n]; [lia|].
      cbn [sleep request now pred] in *. unfold pollIntervalMs in *. lia.
Qed.

End PollBound.

(** From the start of polling at most 25 status requests are made. *)
Lemma pollAndRespond_bound env tok w :
  exists n exit w',
    pollAndRespond env tok w = Some (respond tok exit, w')
    /\ PollRun env tok (now w) 0 None w (S n) exit w'
    /\ (S n <= 25)%nat.
Proof.
  destruct (pollAndRespond_run env tok w) as (n & exit & w' & Hr & Hrun).
  exists n, exit, w'. split; [assumption|]. split; [assumption|].
  destruct (PollRun_bound _ _ _ _ _ _ _ _ _ Hrun) as [H|H]; [lia|discriminate|].
  cbn [pred] in H. unfold pollIntervalMs, timeoutMs in H. lia.
Qed.

Lemma find_first {A} (p : A -> bool) before x after :
  Forall (fun a => p a = false) before -> p x = true ->
  find p (before ++ x :: after) = Some x.
Proof.
  induction 1 as [|a l Ha _ IH]; intros Hx; cbn; [now rewrite Hx|].
  rewrite Ha. now apply IH.
Qed.

Lemma find_none {A} (p : A -> bool) l :
  Forall (fun a => p a = false) l -> find p l = None.
Proof. induction 1 as [|a l Ha _ IH]; cbn; [reflexivity|now rewrite Ha]. Qed.

(* ================================================================== *)
(** ** The handlers: further properties *)
(* ================================================================== *)

Section HandlerTheory.

Variable toLowerCase : JS.str -> JS.str.

(** X6. For a label that is no property of the table object, own or
    inherited, the resolver makes one catalog query and returns the
    identifier of the first record, in catalog order, whose lower-cased
    name or slug contains the lower-cased label; with a non-zero
    identifier the handler then submits the code under it. *)
Theorem catalog_fallback_first_match env label w before found after :
  getProperty DEFAULT_LANGUAGE_IDS label = Undefined ->
  languages env = Answer (Some (before ++ found :: after)) ->
  Forall (fun l => matchesLanguage toLowerCase label l = false) before ->
  matchesLanguage toLowerCase label found = true ->
  resolveLanguage toLowerCase env label w
  = (match lang_id found with Some n => Num n | None => Undefined end,
     request GetLanguages 0 w)
  /\ forall src n,
       JS.truthy src = true -> JS.truthy label = true ->
       lang_id found = Some n -> n <> 0%Z ->
       exists resp w' polls,
         execute toLowerCase env {| code := Some src; language := Some label |} w
         = Some (resp, w')
         /\ calls w' = calls w ++ GetLanguages :: PostSubmission src (Num n) :: polls
         /\ forallb isStatusRequest polls = true.
Proof.
  intros Hp Hl Hb Hf.
  assert (Hres : resolveLanguage toLowerCase env label w
                 = (match lang_id found with Some n => Num n | None => Undefined end,
                    request GetLanguages 0 w)).
  { rewrite (catalog_first_match toLowerCase env label w _ Hp Hl).
    now rewrite (find_first _ _ _ _ Hb Hf). }
  split; [exact Hres|].
  intros src n Hsrc Hlabel Hid Hn.
  destruct (submitAndPoll_total env src (Num n) (request GetLanguages 0 w))
    as (resp & w' & polls & Hs & Hc & Hpolls).
  exists resp, w', polls. split; [|split; [|exact Hpolls]].
  - unfold execute. cbn [code language]. rewrite Hsrc, Hlabel, Hres, Hid.
    cbn [negb orb truthyValue].
    destruct (Z.eqb_spec n 0) as [E|_]; [contradiction|]. exact Hs.
  - rewrite Hc. cbn [request calls]. now rewrite <- app_assoc.
Qed.

(** X7. For a label that is no property of the table object, the request
    ends with the 400 error ["Unsupported language: ..."], after the
    catalog query and without a submission, when the catalog's data is no
    array, when no record matches, and also when the first matching record
    has no identifier or the identifier 0. *)
Theorem catalog_without_usable_match env body src label w :
  code body = Some src -> language body = Some label ->
  JS.truthy src = true -> JS.truthy label = true ->
  getProperty DEFAULT_LANGUAGE_IDS label = Undefined ->
  languages env = Answer None
  \/ (exists records,
        languages env = Answer (Some records)
        /\ Forall (fun l => matchesLanguage toLowerCase label l = false) records)
  \/ (exists before found after,
        languages env = Answer (Some (before ++ found :: after))
        /\ Forall (fun l => matchesLanguage toLowerCase label l = false) before
        /\ matchesLanguage toLowerCase label found = true
        /\ (lang_id found = None \/ lang_id found = Some 0%Z)) ->
  execute toLowerCase env body w
  = Some ({| statusCode := 400;
             json := Error (JS.lit "Unsupported language: " ++ label) |},
          request GetLanguages 0 w).
Proof.
  intros Hc Hl Hsrc Hlabel Hp Hcat.
  unfold execute, resolveLanguage.
  rewrite Hc, Hl, Hsrc, Hlabel, Hp. cbn [negb orb truthyValue].
  destruct Hcat as [Hcat|[(records & Hcat & Hnone)|(before & found & after & Hcat & Hb & Hf & Hid)]];
    rewrite Hcat.
  - reflexivity.
  - now rewrite (find_none _ _ Hnone).
  - rewrite (find_first _ _ _ _ Hb Hf).
    destruct Hid as [-> | ->]; reflexivity.
Qed.

(** X8. When the language resolves but the submission fails, or is
    answered without a token or with an empty one, the request ends with
    status 500 right after the submission: no status request is made, and
    the body carries the failure's details, or the judge's answer as
    [raw]. *)
Theorem submission_without_token env body src label langId w w1 :
  code body = Some src -> language body = Some label ->
  JS.truthy src = true -> JS.truthy label = true ->
  resolveLanguage toLowerCase env label w = (langId, w1) ->
  truthyValue langId = true ->
  (forall details,
     submission env src langId = Failure details ->
     execute toLowerCase env body w
     = Some ({| statusCode := 500;
                json := ErrorDetails (JS.lit "Execution failed") details |},
             request (PostSubmission src langId) 0 w1))
  /\ (forall created,
        submission env src langId = Answer created ->
        created = None \/ created = Some {| token := None |}
        \/ created = Some {| token := Some [] |} ->
        execute toLowerCase env body w
        = Some ({| statusCode := 500;
                   json := ErrorRaw (JS.lit "Judge0 did not return a token") created |},
                request (PostSubmission src langId) 0 w1)).
Proof.
  intros Hc Hl Hsrc Hlabel Hres Hid.
  split.
  - intros details Hs. unfold execute, submitAndPoll.
    now rewrite Hc, Hl, Hsrc, Hlabel, Hres, Hid, Hs.
  - intros created Hs Hcr. unfold execute, submitAndPoll.
    rewrite Hc, Hl, Hsrc, Hlabel, Hres, Hid, Hs.
    destruct Hcr as [->|[->| ->]]; reflexivity.
Qed.

(** X9. The requests of one call of the execute handler: at most one
    catalog query, then at most one submission, then at most 25 status
    requests, all for one token; none to the language model. Status 400
    means that nothing was submitted; otherwise the status is 200 or 500,
    and it is 200 exactly when the body is a result. *)
Theorem execute_request_budget env body w :
  exists resp w' catalog submit polls,
    execute toLowerCase env body w = Some (resp, w')
    /\ calls w' = calls w ++ catalog ++ submit ++ polls
    /\ (catalog = [] \/ catalog = [GetLanguages])
    /\ (submit = [] \/ exists src langId, submit = [PostSubmission src langId])
    /\ (exists tok n, polls = repeat (GetSubmission tok) n /\ (n <= 25)%nat)
    /\ (submit = [] -> polls = [])
    /\ (submit = [] <-> statusCode resp = 400)
    /\ (statusCode resp = 200 \/ statusCode resp = 400 \/ statusCode resp = 500)
    /\ (statusCode resp = 200
        <-> exists out st tk r, json resp = Executed out st tk r).
Proof.
  assert (Hbad : forall w0 catalog msg,
            calls w0 = calls w ++ catalog ->
            catalog = [] \/ catalog = [GetLanguages] ->
            exists resp w' catalog submit polls,
              Some ({| statusCode := 400; json := Error msg |}, w0) = Some (resp, w')
              /\ calls w' = calls w ++ catalog ++ submit ++ polls
              /\ (catalog = [] \/ catalog = [GetLanguages])
              /\ (submit = [] \/ exists src langId, submit = [PostSubmission src langId])
              /\ (exists tok n, polls = repeat (GetSubmission tok) n /\ (n <= 25)%nat)
              /\ (submit = [] -> polls = [])
              /\ (submit = [] <-> statusCode resp = 400)
              /\ (statusCode resp = 200 \/ statusCode resp = 400 \/ statusCode resp = 500)
              /\ (statusCode resp = 200
                  <-> exists out st tk r, json resp = Executed out st tk r)).
  { intros w0 catalog msg Hw Hcat.
    exists {| statusCode := 400; json := Error msg |}, w0, catalog, [], [].
    split; [reflexivity|]. split; [now rewrite !app_nil_r|].
    split; [exact Hcat|]. split; [now left|].
    split; [exists [], 0%nat; split; [reflexivity | lia]|].
    split; [reflexivity|]. split; [now split|]. split; [auto|].
    cbn. split; [discriminate | intros (? & ? & ? & ? & ?); discriminate]. }
  unfold execute.
  destruct (code body) as [src|]; [|apply (Hbad w []); [now rewrite app_nil_r | now left]].
  destruct (language body) as [label|];
    [|apply (Hbad w []); [now rewrite app_nil_r | now left]].
  destruct (negb (JS.truthy src) || negb (JS.truthy label));
    [apply (Hbad w []); [now rewrite app_nil_r | now left]|].
  destruct (resolveLanguage toLowerCase env label w) as [langId w1] eqn:Hres.
  assert (Hw1 : exists catalog, calls w1 = calls w ++ catalog
                                /\ (catalog = [] \/ catalog = [GetLanguages])).
  { destruct (resolveLanguage_world _ _ _ _ _ _ Hres) as [-> | ->].
    - exists []. split; [now rewrite app_nil_r | now left].
    - exists [GetLanguages]. split; [reflexivity | now right]. }
  destruct Hw1 as (catalog & Hw1 & Hcat).
  destruct (negb (truthyValue langId)); [now apply (Hbad w1 catalog)|].
  assert (Hfail : forall p,
            (forall out st tk r, p <> Executed out st tk r) ->
            exists resp w' catalog submit polls,
              Some ({| statusCode := 500; json := p |},
                    request (PostSubmission src langId) 0 w1) = Some (resp, w')
              /\ calls w' = calls w ++ catalog ++ submit ++ polls
              /\ (catalog = [] \/ catalog = [GetLanguages])
              /\ (submit = [] \/ exists src langId, submit = [PostSubmission src langId])
              /\ (exists tok n, polls = repeat (GetSubmission tok) n /\ (n <= 25)%nat)
              /\ (submit = [] -> polls = [])
              /\ (submit = [] <-> statusCode resp = 400)
              /\ (statusCode resp = 200 \/ statusCode resp = 400 \/ statusCode resp = 500)
              /\ (statusCode resp = 200
                  <-> exists out st tk r, json resp = Executed out st tk r)).
  { intros p Hp.
    exists {| statusCode := 500; json := p |},
           (request (PostSubmission src langId) 0 w1),
           catalog, [PostSubmission src langId], [].
    split; [reflexivity|].
    split; [cbn [request calls]; now rewrite Hw1, app_nil_r, app_assoc|].
    split; [exact Hcat|]. split; [right; eauto|].
    split; [exists [], 0%nat; split; [reflexivity | lia]|].
    split; [reflexivity|].
    split; [cbn; split; discriminate|]. split; [auto|].
    cbn. split; [discriminate|]. intros (out & st & tk & r & E).
    now apply Hp in E. }
  unfold submitAndPoll.
  destruct (submission env src langId) as [[[[tok|]]|]|details];
    try (apply Hfail; discriminate).
  destruct (negb (JS.truthy tok)); [apply Hfail; discriminate|].
  destruct (pollAndRespond_bound env tok (request (PostSubmission src langId) 0 w1))
    as (n & exit & w' & Hr & Hrun & Hn).
  apply PollRun_calls in Hrun. cbn [request calls] in Hrun.
  exists (respond tok exit), w', catalog, [PostSubmission src langId],
         (repeat (GetSubmission tok) (S n)).
  split; [exact Hr|].
  split; [now rewrite Hrun, Hw1, <- !app_assoc|].
  split; [exact Hcat|]. split; [right; eauto|].
  split; [now exists tok, (S n)|].
  split; [discriminate|].
  destruct exit as [[r|]|details]; cbn [respond statusCode json].
  - split; [split; discriminate|]. split; [auto|].
    split; [eauto | reflexivity].
  - split; [split; discriminate|]. split; [auto|].
    split; [discriminate | intros (? & ? & ? & ? & ?); discriminate].
  - split; [split; discriminate|]. split; [auto|].
    split; [discriminate | intros (? & ? & ? & ? & ?); discriminate].
Qed.

(** X10. The display output is never blank: trimmed, it is not empty. *)
Theorem displayOutput_not_blank (r : ResultData) :
  JS.trim (displayOutput r) <> [].
Proof.
  unfold displayOutput. rewrite !truthy_and_trim.
  destruct (JS.truthy (JS.trim (safeDecode (compile_output r)))) eqn:E1;
    [now apply JSFacts.truthy_true|].
  destruct (JS.truthy (JS.trim (safeDecode (stderr r)))) eqn:E2;
    [now apply JSFacts.truthy_true|].
  destruct (JS.truthy (JS.trim (safeDecode (stdout r)))) eqn:E3;
    [now apply JSFacts.truthy_true|].
  discriminate.
Qed.

End HandlerTheory.

(** X11. A success response of the explain handler never carries an empty
    explanation, and one of the improve handler never carries empty code
    nor code with white space around it. *)
Theorem model_text_never_empty env body w :
  (forall sc t w',
     explain env body w = ({| statusCode := sc; json := Explanation t |}, w') ->
     sc = 200 /\ t <> [])
  /\ (forall sc t w',
        improve env body w = ({| statusCode := sc; json := Improved t |}, w') ->
        sc = 200 /\ t <> [] /\ JS.trim t = t).
Proof.
  split; intros sc t w'.
  - unfold explain.
    destruct (code body) as [src|]; [|discriminate].
    destruct (language body) as [label|]; [|discriminate].
    destruct (negb (JS.truthy src) || negb (JS.truthy label)); [discriminate|].
    destruct (generateContent env _) as [[text|]|]; try discriminate;
      intros H; inversion H; subst; (split; [reflexivity|]).
    + destruct text; discriminate.
    + discriminate.
  - unfold improve.
    destruct (code body) as [src|]; [|discriminate].
    destruct (language body) as [label|]; [|discriminate].
    destruct (negb (JS.truthy src) || negb (JS.truthy label)); [discriminate|].
    destruct (generateContent env _) as [t0|]; [|discriminate].
    intros H; inversion H; subst sc t w'. split; [reflexivity|].
    destruct (JS.includes _ _); [split; [discriminate|reflexivity]|].
    destruct (JS.truthy (JS.trim _)) eqn:E;
      [|split; [discriminate|reflexivity]].
    split; [now apply JSFacts.truthy_true | apply TrimFacts.trim_idem].
Qed.

Section PollTime.

Variable env : Env.
Variable tok : JS.str.
Variable startAt : N.

(** The loop is left within the timeout plus the time of its last status
    request and of the pause after it. *)
Lemma PollRun_duration k rd w n exit w' :
  PollRun env tok startAt k rd w n exit w' ->
  match n with
  | O => w' = w
  | S m =>
      now w' - startAt
      < timeoutMs + pollLatency env (k + m)
        + (pollIntervalMs + sleepOvershoot env (k + m))
  end.
Proof.
  induction 1 as [k rd w _|k rd w d Ht _|k rd w data Ht _ _
                 |k rd w data n exit w' Ht _ _ _ IH].
  - reflexivity.
  - rewrite Nat.add_0_r. cbn [request now]. lia.
  - rewrite Nat.add_0_r. cbn [request now]. lia.
  - destruct n as [|m].
    + subst w'. rewrite Nat.add_0_r. cbn [sleep request now]. lia.
    + now rewrite Nat.add_succ_r.
Qed.

End PollTime.

Section LastPoll.

Variable toLowerCase : JS.str -> JS.str.

(** X12. The response to a request that reaches the poll loop is decided
    by the last status request alone: its failure gives the 500 error
    ["Execution failed"], an answer without data the 500 error
    ["No result received from Judge0"], and an answer with data the
    success response built from that data, under the token the judge
    issued. The last request is the first that failed or reported a
    status above 2, or else the one during which the timeout elapsed. *)
Theorem response_from_last_poll env body w tok w2 :
  reachesPolling toLowerCase env body w tok w2 ->
  exists resp w' m,
    execute toLowerCase env body w = Some (resp, w')
    /\ calls w' = calls w2 ++ repeat (GetSubmission tok) (S m)
    /\ resp = match poll env m with
              | Failure details =>
                  {| statusCode := 500;
                     json := ErrorDetails (JS.lit "Execution failed") details |}
              | Answer None =>
                  {| statusCode := 500;
                     json := Error (JS.lit "No result received from Judge0") |}
              | Answer (Some r) =>
                  {| statusCode := 200;
                     json := Executed (displayOutput r) (statusDescOf r) tok r |}
              end
    /\ (forall j, (j < m)%nat ->
          exists d, poll env j = Answer d /\ (statusIdOf d <= 2)%Z)
    /\ (forall d, poll env m = Answer d ->
          (2 < statusIdOf d)%Z \/ timeoutMs <= now w' - now w2).
Proof.
  intros Hreach.
  destruct (pollAndRespond_run env tok w2) as (m & exit & w' & Hr & Hrun).
  pose proof (PollRun_last _ _ _ _ _ _ _ _ _ Hrun) as Hl.
  cbn beta iota in Hl. cbn [Nat.add] in Hl.
  exists (respond tok exit), w', m.
  split; [now rewrite (execute_polling _ _ _ _ _ _ Hreach)|].
  split; [now apply PollRun_calls in Hrun|].
  split; [|split].
  - destruct exit as [d|details].
    + destruct Hl as [Hp _]. rewrite Hp. now destruct d.
    + now rewrite Hl.
  - intros j Hj.
    apply (PollRun_before _ _ _ _ _ _ _ _ _ Hrun j). lia.
  - intros d Hp. destruct exit as [d'|details]; [|congruence].
    destruct Hl as [Hp' Ht]. rewrite Hp in Hp'. inversion Hp'; subst d'.
    destruct Ht as [Ht|[_ Ht]]; auto.
Qed.

(** X13. Polling ends within the timeout plus the time of the last status
    request and of one pause: measured from its start, less than
    20,000 ms and the latency of that request and the 800 ms and the
    pause's overshoot have gone by when the handler answers. *)
Theorem polling_time_bound env body w tok w2 :
  reachesPolling toLowerCase env body w tok w2 ->
  exists resp w' m,
    execute toLowerCase env body w = Some (resp, w')
    /\ calls w' = calls w2 ++ repeat (GetSubmission tok) (S m)
    /\ now w2 <= now w'
    /\ now w' - now w2
       < timeoutMs + pollLatency env m
         + (pollIntervalMs + sleepOvershoot env m).
Proof.
  intros Hreach.
  destruct (pollAndRespond_run env tok w2) as (m & exit & w' & Hr & Hrun).
  exists (respond tok exit), w', m.
  split; [now rewrite (execute_polling _ _ _ _ _ _ Hreach)|].
  split; [now apply (PollRun_calls _ _ _ _ _ _ _ _ _ Hrun)|].
  split; [now apply (PollRun_clock _ _ _ _ _ _ _ _ _ Hrun)|].
  exact (PollRun_duration _ _ _ _ _ _ _ _ _ Hrun).
Qed.

Lemma eqStr_true a b : eqStr a b = true -> a = b.
Proof. unfold eqStr. now destruct (list_eq_dec N.eq_dec a b). Qed.

Lemma ownProperty_In o key v : ownProperty o key = Some v -> In (key, v) o.
Proof.
  induction o as [|[k u] o IH]; [discriminate|]. cbn [ownProperty].
  destruct (eqStr k key) eqn:E.
  - apply eqStr_true in E. intros H; inversion H; subst. now left.
  - intros H. right. now apply IH.
Qed.

(** X14. Resolution makes no catalog query exactly for the five labels of
    the static table and for the twelve property names every object
    inherits; the match is exact and case-sensitive. *)
Theorem resolution_is_local_exactly env label w :
  calls (snd (resolveLanguage toLowerCase env label w)) = calls w
  <-> (exists n, In (label, n) DEFAULT_LANGUAGE_IDS)
      \/ In label objectPrototypeKeys.
Proof.
  split.
  - unfold resolveLanguage.
    destruct (getProperty DEFAULT_LANGUAGE_IDS label) as [|n|key] eqn:Hp.
    + cbn [truthyValue negb]. intros H. exfalso.
      assert (Hc : calls (request GetLanguages 0 w) = calls w).
      { destruct (languages env) as [[records|]|];
          [destruct (find _ records)|..]; exact H. }
      cbn [request calls] in Hc.
      apply (f_equal (@List.length call)) in Hc.
      rewrite length_app in Hc. cbn in Hc. lia.
    + intros _. left. exists n. unfold getProperty in Hp.
      destruct (ownProperty DEFAULT_LANGUAGE_IDS label) as [v|] eqn:Ev.
      * inversion Hp; subst. now apply ownProperty_In.
      * destruct (existsb _ _); discriminate.
    + intros _. right. unfold getProperty in Hp.
      destruct (ownProperty DEFAULT_LANGUAGE_IDS label); [discriminate|].
      destruct (existsb (eqStr label) objectPrototypeKeys) eqn:Ee; [|discriminate].
      apply existsb_exists in Ee. destruct Ee as (key' & Hin & He).
      apply eqStr_true in He. now subst.
  - intros [[n Hin]|Hin].
    + cbn [In DEFAULT_LANGUAGE_IDS] in Hin.
      repeat destruct Hin as [Hin|Hin]; try contradiction;
        inversion Hin; subst; reflexivity.
    + unfold objectPrototypeKeys in Hin. cbn [map In] in Hin.
      repeat destruct Hin as [Hin|Hin]; try contradiction; subst; reflexivity.
Qed.

End LastPoll.

(* ================================================================== *)
(** ** The explanation formatter: properties *)
(* ================================================================== *)

Module PageFacts.
Import Page.

Example format_sample :
  formatExplanation
    (JS.lit "# Title" ++ [10] ++ JS.lit "This is **bold** and `code` and ** open"
     ++ [10] ++ JS.lit "# Second `a`b`c` ***x***")
  = JS.lit "<h3>Title</h3><br>This is <strong>bold</strong> and <code>code</code> and ** open<br><h3>Second <code>a</code>b<code>c</code> <strong>*x</strong>*</h3>".
Proof. reflexivity. Qed.

(** Where the pattern matches at no character of the text, the text is
    left as it is. *)
Lemma replaceFrom_unmatched (m : matcher) s :
  (forall prev c s', In c s -> m prev (c :: s') = None) ->
  forall prev, replaceFrom m 0 prev s = s.
Proof.
  induction s as [|c s IH]; intros Hm prev; [reflexivity|].
  cbn [replaceFrom]. rewrite (Hm prev c s) by now left.
  f_equal. apply IH. intros p d s' Hd. apply Hm. now right.
Qed.

Lemma replaceFrom_keeps (m : matcher) :
  keepsContent m ->
  forall s skip prev c,
    In c (skipn skip s) -> contentChar c = true ->
    In c (replaceFrom m skip prev s).
Proof.
  intros Hm. induction s as [|a s IH]; intros skip prev c Hin Hc.
  { now destruct skip. }
  cbn [replaceFrom]. destruct skip as [|k]; [|now apply IH].
  cbn [skipn] in Hin.
  destruct (m prev (a :: s)) as [[replacement len]|] eqn:E.
  - destruct (Hm _ _ _ _ E) as [[Hl1 Hl2] Hkeep].
    apply in_or_app.
    rewrite <- (firstn_skipn len (a :: s)) in Hin.
    apply in_app_or in Hin. destruct Hin as [Hin|Hin].
    + left. now apply Hkeep.
    + right. apply IH; [|exact Hc].
      destruct len as [|len]; [lia|exact Hin].
  - destruct Hin as [->|Hin]; [now left|].
    right. now apply IH.
Qed.

Lemma startsWith_split p s :
  JS.startsWith p s = true -> exists tail, s = p ++ tail.
Proof.
  revert s. induction p as [|a p IH]; intros s H; [now exists s|].
  destruct s as [|b s]; [discriminate|]. cbn [JS.startsWith] in H.
  apply andb_true_iff in H. destruct H as [Hab Hp].
  apply N.eqb_eq in Hab. subst b.
  destruct (IH s Hp) as [tail ->]. now exists tail.
Qed.

Lemma lazyUntil_split delim s cap :
  lazyUntil delim s = Some cap -> exists tail, s = cap ++ delim ++ tail.
Proof.
  revert cap. induction s as [|c s IH]; intros cap; cbn [lazyUntil].
  - destruct (JS.startsWith delim []) eqn:E; [|discriminate].
    intros H; inversion H; subst. apply startsWith_split in E. exact E.
  - destruct (JS.startsWith delim (c :: s)) eqn:E.
    + intros H; inversion H; subst. apply startsWith_split in E. exact E.
    + destruct (isLineTerminator c); [discriminate|].
      destruct (lazyUntil delim s) as [cap'|]; [|discriminate].
      intros H; inversion H; subst.
      destruct (IH cap' eq_refl) as [tail ->]. now exists tail.
Qed.

Lemma restOfLine_split s : exists tail, s = restOfLine s ++ tail.
Proof.
  induction s as [|c s [tail IH]]; [now exists []|]. cbn [restOfLine].
  destruct (isLineTerminator c); [now exists (c :: s)|].
  exists tail. cbn. now f_equal.
Qed.

Lemma firstn_app_exact {A} (l1 l2 : list A) :
  firstn (List.length l1) (l1 ++ l2) = l1.
Proof.
  rewrite <- (Nat.add_0_r (List.length l1)), firstn_app_2. cbn.
  apply app_nil_r.
Qed.

Lemma firstn_len_plus {A} (l1 l2 : list A) k m :
  m = (List.length l1 + k)%nat -> firstn m (l1 ++ l2) = l1 ++ firstn k l2.
Proof. intros ->. apply firstn_app_2. Qed.

Lemma heading_keeps : keepsContent heading.
Proof.
  intros prev s replacement len. unfold heading.
  destruct s as [|c [|d rest]]; try discriminate.
  destruct ((c =? 35) && (d =? 32) && _) eqn:E; [|discriminate].
  apply andb_true_iff in E. destruct E as [E _].
  apply andb_true_iff in E. destruct E as [Ec Ed].
  apply N.eqb_eq in Ec, Ed. subst c d.
  destruct (restOfLine_split rest) as [tail Ht].
  revert Ht. generalize (restOfLine rest). intros cap ->.
  intros H; inversion H; subst. clear H.
  split.
  - cbn [List.length]. rewrite length_app. lia.
  - intros c Hin Hc.
    change (2 + List.length cap)%nat with (S (S (List.length cap))) in Hin.
    rewrite !firstn_cons, firstn_app_exact in Hin.
    destruct Hin as [<-|[<-|Hin]]; try discriminate.
    cbn. repeat right. apply in_or_app. now left.
Qed.

Lemma strong_keeps : keepsContent strong.
Proof.
  intros prev s replacement len. unfold strong.
  destruct s as [|c [|d rest]]; try discriminate.
  destruct ((c =? 42) && (d =? 42)) eqn:E; [|discriminate].
  apply andb_true_iff in E. destruct E as [Ec Ed].
  apply N.eqb_eq in Ec, Ed. subst c d.
  destruct (lazyUntil [42; 42] rest) as [cap|] eqn:El; [|discriminate].
  intros H; inversion H; subst. clear H.
  destruct (lazyUntil_split _ _ _ El) as [tail ->].
  split.
  - cbn [List.length]. rewrite !length_app. cbn [List.length]. lia.
  - intros c Hin Hc.
    rewrite !firstn_cons, (firstn_len_plus cap _ 2) in Hin by lia.
    cbn [firstn app] in Hin.
    destruct Hin as [<-|[<-|Hin]]; try discriminate.
    apply in_app_or in Hin. destruct Hin as [Hin|Hin].
    + cbn. repeat right. apply in_or_app. now left.
    + destruct Hin as [<-|[<-|[]]]; discriminate.
Qed.

Lemma inlineCode_keeps : keepsContent inlineCode.
Proof.
  intros prev s replacement len. unfold inlineCode.
  destruct s as [|c rest]; try discriminate.
  destruct (N.eqb_spec c 96) as [->|]; [|discriminate].
  destruct (lazyUntil [96] rest) as [cap|] eqn:El; [|discriminate].
  intros H; inversion H; subst. clear H.
  destruct (lazyUntil_split _ _ _ El) as [tail ->].
  split.
  - cbn [List.length]. rewrite !length_app. cbn [List.length]. lia.
  - intros c Hin Hc.
    rewrite firstn_cons, (firstn_len_plus cap _ 1) in Hin by lia.
    cbn [firstn app] in Hin.
    destruct Hin as [<-|Hin]; try discriminate.
    apply in_app_or in Hin. destruct Hin as [Hin|Hin].
    + cbn. repeat right. apply in_or_app. now left.
    + destruct Hin as [<-|[]]; discriminate.
Qed.

Lemma lineBreak_keeps : keepsContent lineBreak.
Proof.
  intros prev s replacement len. unfold lineBreak.
  destruct s as [|c rest]; try discriminate.
  destruct (N.eqb_spec c 10) as [->|]; [|discriminate].
  intros H; inversion H; subst. clear H.
  split; [cbn; lia|].
  intros c [<-|[]]. discriminate.
Qed.

End PageFacts.

(** X15. Text without a hash, an asterisk, a backtick or a line feed is
    returned as it is; markup in it, angle brackets and ampersands
    included, is not escaped. *)
Theorem formatExplanation_plain_text (text : JS.str) :
  forallb plainChar text = true -> Page.formatExplanation text = text.
Proof.
  intros H. rewrite forallb_forall in H.
  assert (Hp : forall c, In c text ->
            (c =? 35) = false /\ (c =? 42) = false
            /\ (c =? 96) = false /\ (c =? 10) = false).
  { intros c Hc. specialize (H c Hc). unfold plainChar in H.
    apply negb_true_iff in H.
    repeat (apply orb_false_iff in H; destruct H as [H ?]). tauto. }
  unfold Page.formatExplanation, Page.replaceGlobal.
  assert (H1 : Page.replaceFrom Page.heading 0 None text = text).
  { apply PageFacts.replaceFrom_unmatched. intros prev c s' Hc.
    destruct (Hp c Hc) as (E & _). unfold Page.heading.
    destruct s'; [reflexivity|]. now rewrite E. }
  rewrite H1.
  assert (H2 : Page.replaceFrom Page.strong 0 None text = text).
  { apply PageFacts.replaceFrom_unmatched. intros prev c s' Hc.
    destruct (Hp c Hc) as (_ & E & _). unfold Page.strong.
    destruct s'; [reflexivity|]. now rewrite E. }
  rewrite H2.
  assert (H3 : Page.replaceFrom Page.inlineCode 0 None text = text).
  { apply PageFacts.replaceFrom_unmatched. intros prev c s' Hc.
    destruct (Hp c Hc) as (_ & _ & E & _). unfold Page.inlineCode.
    now rewrite E. }
  rewrite H3.
  apply PageFacts.replaceFrom_unmatched. intros prev c s' Hc.
  destruct (Hp c Hc) as (_ & _ & _ & E). unfold Page.lineBreak. now rewrite E.
Qed.

(** X16. Every character of the text other than a hash, a space, an
    asterisk, a backtick and a line feed occurs in what [formatExplanation]
    returns: no content is dropped, and no angle bracket is escaped. *)
Theorem formatExplanation_keeps_content (text : JS.str) (c : N) :
  In c text -> contentChar c = true -> In c (Page.formatExplanation text).
Proof.
  intros Hin Hc. unfold Page.formatExplanation, Page.replaceGlobal.
  apply (PageFacts.replaceFrom_keeps _ PageFacts.lineBreak_keeps); [|exact Hc].
  apply (PageFacts.replaceFrom_keeps _ PageFacts.inlineCode_keeps); [|exact Hc].
  apply (PageFacts.replaceFrom_keeps _ PageFacts.strong_keeps); [|exact Hc].
  apply (PageFacts.replaceFrom_keeps _ PageFacts.heading_keeps); [|exact Hc].
  exact Hin.
Qed.

(* ================================================================== *)
(** ** The further properties at sample inputs *)
(* ================================================================== *)

Lemma safeDecode_base64_forms_witness :
  Forall (fun c => c < 256) ([32; 32] ++ JS.lit "aGVsbG8" ++ [10])
  /\ safeDecode (Some ([32; 32] ++ JS.lit "aGVsbG8" ++ [10])) = JS.lit "hello".
Proof.
  assert (Hl : Forall (fun c => c < 256) ([32; 32] ++ JS.lit "aGVsbG8" ++ [10]))
    by (repeat constructor).
  split; [exact Hl|].
  apply (DecoderTheory.safeDecode_base64_forms _ (JS.lit "hello") 0 Hl eq_refl eq_refl).
  discriminate.
Defined.

Lemma safeDecode_lossless_witness :
  isLikelyBase64 (JS.lit "aGVsbG8gd29ybGQ=") = true
  /\ Buffer.fromUtf8 (safeDecode (Some (JS.lit "aGVsbG8gd29ybGQ=")))
     = Buffer.fromBase64 (JS.lit "aGVsbG8gd29ybGQ=").
Proof.
  split; [reflexivity|].
  apply (DecoderTheory.safeDecode_lossless (JS.lit "aGVsbG8gd29ybGQ="));
    [repeat constructor | reflexivity].
Defined.

Lemma safeDecode_line_wrapped_witness :
  In 10 (JS.trim (JS.lit "aGVsbG8g" ++ [10] ++ JS.lit "d29ybGQ="))
  /\ safeDecode (Some (JS.lit "aGVsbG8g" ++ [10] ++ JS.lit "d29ybGQ="))
     = JS.lit "aGVsbG8g" ++ [10] ++ JS.lit "d29ybGQ=".
Proof.
  assert (Hin : In 10 (JS.trim (JS.lit "aGVsbG8g" ++ [10] ++ JS.lit "d29ybGQ=")))
    by (do 8 right; left; reflexivity).
  split; [exact Hin|].
  exact (proj2 (DecoderTheory.safeDecode_line_wrapped _ 10 Hin (or_introl eq_refl))).
Defined.

Lemma safeDecode_only_padding_witness :
  JS.trim (JS.lit "=====" ++ [10]) = repeat 61 5
  /\ displayOutput {| status := None; compile_output := None; stderr := None;
                      stdout := Some (JS.lit "=====" ++ [10]) |}
     = JS.lit "No output".
Proof.
  split; [reflexivity|].
  apply (DecoderTheory.safeDecode_only_padding (JS.lit "=====" ++ [10]) 4);
    [repeat constructor | reflexivity].
Defined.

Lemma catalog_fallback_first_match_witness :
  resolveLanguage asciiLower catalogEnv (JS.lit "ru") startWorld
  = (Num 72, request GetLanguages 0 startWorld).
Proof.
  refine (proj1 (catalog_fallback_first_match asciiLower catalogEnv (JS.lit "ru")
                   startWorld
                   [ {| lang_id := Some 46%Z; lang_name := Some (JS.lit "Bash (5.0.0)");
                        lang_slug := None |} ]
                   {| lang_id := Some 72%Z; lang_name := Some (JS.lit "Ruby (2.7.0)");
                      lang_slug := None |}
                   [ {| lang_id := Some 73%Z; lang_name := Some (JS.lit "Rust (1.40.0)");
                        lang_slug := None |} ]
                   eq_refl eq_refl _ eq_refl)).
  repeat constructor.
Defined.

Lemma catalog_without_usable_match_witness :
  execute asciiLower catalogEnv cobolRequest startWorld
  = Some ({| statusCode := 400;
             json := Error (JS.lit "Unsupported language: cobol") |},
          request GetLanguages 0 startWorld).
Proof.
  refine (catalog_without_usable_match asciiLower catalogEnv cobolRequest
            (JS.lit "DISPLAY 1.") (JS.lit "cobol") startWorld
            eq_refl eq_refl eq_refl eq_refl eq_refl _).
  right. left. eexists. split; [reflexivity|]. repeat constructor.
Defined.

Lemma submission_without_token_witness :
  execute asciiLower catalogEnv printOne startWorld
  = Some ({| statusCode := 500;
             json := ErrorRaw (JS.lit "Judge0 did not return a token")
                       (Some {| token := None |}) |},
          request (PostSubmission (JS.lit "print(1)") (Num 71)) 0 startWorld).
Proof.
  refine (proj2 (submission_without_token asciiLower catalogEnv printOne
                   (JS.lit "print(1)") (JS.lit "python") (Num 71)
                   startWorld startWorld
                   eq_refl eq_refl eq_refl eq_refl eq_refl eq_refl)
                (Some {| token := None |}) eq_refl _).
  right. left. reflexivity.
Defined.

Lemma response_from_last_poll_witness :
  exists w',
    execute asciiLower brokenPollEnv printOne startWorld
    = Some ({| statusCode := 500;
               json := ErrorDetails (JS.lit "Execution failed")
                         (JS.lit "socket hang up") |}, w')
    /\ countCalls isStatusRequest (calls w') = 2%nat.
Proof.
  destruct (response_from_last_poll asciiLower brokenPollEnv printOne startWorld
              jobToken _ (printOne_reaches_polling brokenPollEnv eq_refl))
    as (resp & w' & m & He & _).
  exists w'. revert He. vm_compute. intros He. inversion He. now split.
Defined.

Lemma polling_time_bound_witness :
  exists w',
    execute asciiLower twoPollEnv printOne startWorld
    = Some ({| statusCode := 200;
               json := Executed (JS.lit "1") (JS.lit "Accepted") jobToken
                         (snapshot (Some 3%Z) (Some (JS.lit "Accepted"))
                                   (Some (JS.lit "1"))) |}, w')
    /\ now w' - now startWorld < timeoutMs + 120 + (pollIntervalMs + 3).
Proof.
  destruct (polling_time_bound asciiLower twoPollEnv printOne startWorld
              jobToken _ (printOne_reaches_polling twoPollEnv eq_refl))
    as (resp & w' & m & He & _ & _ & Ht).
  exists w'. split; [|exact Ht].
  rewrite He. revert He. vm_compute. intros He. now inversion He.
Defined.

Lemma formatExplanation_plain_text_witness :
  forallb plainChar (JS.lit "Use <b>map</b> & filter.") = true
  /\ Page.formatExplanation (JS.lit "Use <b>map</b> & filter.")
     = JS.lit "Use <b>map</b> & filter.".
Proof.
  split; [reflexivity|].
  exact (formatExplanation_plain_text (JS.lit "Use <b>map</b> & filter.") eq_refl).
Defined.

Lemma formatExplanation_keeps_content_witness :
  In 60 (JS.lit "**<i>x</i>**") /\ contentChar 60 = true
  /\ In 60 (Page.formatExplanation (JS.lit "**<i>x</i>**")).
Proof.
  assert (Hin : In 60 (JS.lit "**<i>x</i>**")) by (do 2 right; left; reflexivity).
  split; [exact Hin|]. split; [reflexivity|].
  exact (formatExplanation_keeps_content _ 60 Hin eq_refl).
Defined.
